(** * ink-llm-console: the session service, the transcript writer and the
    settings form, embedded from [src/services/llmService.ts],
    [src/components/SettingsInterface.tsx] and [src/types/index.ts].

    JavaScript strings are sequences of UTF-16 code units, numbers are IEEE
    binary64 values, objects live in a store and are passed by reference. *)

From Stdlib Require Import ZArith NArith Lia Bool.
From Stdlib Require Import Floats.SpecFloat.
From stdpp Require Import base option list strings gmap.

Local Open Scope N_scope.

(** ** Strings: lists of UTF-16 code units *)

Module JSString.

Definition unit16 := N.
Definition jsstring := list unit16.

(** An ASCII literal of the source, as code units. *)
Definition js (s : string) : jsstring :=
  map Ascii.N_of_ascii (String.list_ascii_of_string s).
Global Arguments js s%_string.

Definition eqb (a b : jsstring) : bool := bool_decide (a = b).

(** Character classes. *)
Definition is_digit (c : unit16) : bool := (48 <=? c) && (c <=? 57).
Definition is_lower (c : unit16) : bool := (97 <=? c) && (c <=? 122).
Definition is_upper (c : unit16) : bool := (65 <=? c) && (c <=? 90).
Definition is_alnum (c : unit16) : bool :=
  is_lower c || is_upper c || is_digit c.

(** [WhiteSpace] and [LineTerminator] of ECMAScript, what [TrimString]
    removes. *)
Definition is_space (c : unit16) : bool :=
  (c =? 9) || (c =? 10) || (c =? 11) || (c =? 12) || (c =? 13) || (c =? 32)
  || (c =? 160) || (c =? 5760) || ((8192 <=? c) && (c <=? 8202))
  || (c =? 8232) || (c =? 8233) || (c =? 8239) || (c =? 8287)
  || (c =? 12288) || (c =? 65279).

Fixpoint trimStart (s : jsstring) : jsstring :=
  match s with
  | c :: r => if is_space c then trimStart r else s
  | [] => []
  end.

(** [s.replace(/re/g, by)] for a regular expression that is one character
    class: every code unit of the class becomes [by]. *)
Definition replace_class (cls : unit16 -> bool) (by_ : unit16) (s : jsstring)
  : jsstring :=
  map (fun c => if cls c then by_ else c) s.

(** [String.prototype.toLowerCase] on the Basic Latin block; the receivers
    in this program hold nothing else (see [slug_receiver_ascii]). *)
Definition lower_unit (c : unit16) : unit16 := if is_upper c then c + 32 else c.
Definition toLowerCase (s : jsstring) : jsstring := map lower_unit s.

(** [Array.prototype.includes] on an array of strings. *)
Definition includes (l : list jsstring) (x : jsstring) : bool :=
  existsb (eqb x) l.

(** [s.startsWith(p)]. *)
Fixpoint starts_with (p s : jsstring) : bool :=
  match p, s with
  | [], _ => true
  | a :: p', b :: s' => (a =? b) && starts_with p' s'
  | _ :: _, [] => false
  end.

(** [s.includes(t)]: [t] occurs in [s] as a contiguous run. *)
Fixpoint contains (t s : jsstring) : bool :=
  starts_with t s
  || match s with
     | _ :: r => contains t r
     | [] => false
     end.

(** JavaScript truthiness of an optional string: [undefined] and [''] are
    falsy. *)
Definition truthy_str (o : option jsstring) : bool :=
  match o with
  | Some (_ :: _) => true
  | _ => false
  end.

(** [a || b] on optional strings. *)
Definition or_str (a b : option jsstring) : option jsstring :=
  if truthy_str a then a else b.

(** [a || 'literal']. *)
Definition or_default (a : option jsstring) (d : jsstring) : jsstring :=
  match a with
  | Some (c :: r) => c :: r
  | _ => d
  end.

End JSString.
Import JSString.

(** ** Numbers: binary64 *)

Module JSNumber.

Definition number := spec_float.

Definition prec : Z := 53.
Definition emax : Z := 1024.

(** The Number value of [m * 10^e], rounded to nearest, ties to even. *)
Definition of_decimal (neg : bool) (m : N) (e : Z) : number :=
  match m with
  | N0 => S754_zero neg
  | Npos p =>
      match e with
      | Zneg k =>
          let '(q, e', l) :=
            SFdiv_core_binary prec emax (Zpos p) 0 (Z.pow 10 (Zpos k)) 0 in
          binary_round_aux prec emax neg q e' l
      | _ => binary_round prec emax neg (Z.to_pos (Zpos p * Z.pow 10 e)) 0
      end
  end.

Definition of_N (n : N) : number := of_decimal false n 0.

Definition NaN : number := S754_nan.

(** [ToBoolean] of a number: [+0], [-0] and [NaN] are falsy. *)
Definition truthy (x : number) : bool :=
  match x with
  | S754_zero _ | S754_nan => false
  | _ => true
  end.

(** [a || b] on numbers. *)
Definition or_num (a b : number) : number := if truthy a then a else b.

Definition is_zero (x : number) : bool :=
  match x with S754_zero _ => true | _ => false end.

Definition digit_val (c : unit16) : N := c - 48.

(** The longest run of decimal digits at the head, and what follows. *)
Fixpoint span_digits (s : jsstring) : jsstring * jsstring :=
  match s with
  | c :: r =>
      if is_digit c then let '(d, r') := span_digits r in (c :: d, r')
      else ([], s)
  | [] => ([], [])
  end.

Definition digits_val (ds : jsstring) : N :=
  fold_left (fun acc c => 10 * acc + digit_val c) ds 0.

(** An optional sign at the head: is it a minus, and what follows. *)
Definition take_sign (s : jsstring) : bool * jsstring :=
  match s with
  | c :: r => if c =? 45 then (true, r) else if c =? 43 then (false, r)
              else (false, s)
  | [] => (false, [])
  end.

(** [ExponentPart] of [StrDecimalLiteral]: [e] or [E], an optional sign and
    at least one digit; otherwise the literal stops before it. *)
Definition exponent_part (s : jsstring) : Z :=
  match s with
  | c :: r =>
      if (c =? 101) || (c =? 69) then
        let '(neg, r1) := take_sign r in
        let '(ds, _) := span_digits r1 in
        match ds with
        | [] => 0%Z
        | _ => if neg then (- Z.of_N (digits_val ds))%Z
               else Z.of_N (digits_val ds)
        end
      else 0%Z
  | [] => 0%Z
  end.

(** The global [parseFloat]: the longest prefix of the trimmed input that is
    a [StrDecimalLiteral], or [NaN] when there is none. *)
Definition parseFloat (s : jsstring) : number :=
  let '(neg, u) := take_sign (trimStart s) in
  if starts_with (js "Infinity") u then S754_infinity neg
  else
    let '(ip, r1) := span_digits u in
    let '(fp, r2) :=
      match r1 with
      | c :: r => if c =? 46 then span_digits r else ([], r1)
      | [] => ([], r1)
      end in
    match ip ++ fp with
    | [] => NaN
    | ds => of_decimal neg (digits_val ds)
              (exponent_part r2 - Z.of_nat (length fp))
    end.

Definition is_hex (c : unit16) : bool :=
  is_digit c || ((97 <=? c) && (c <=? 102)) || ((65 <=? c) && (c <=? 70)).

Definition hex_val (c : unit16) : N :=
  if is_digit c then c - 48 else if 97 <=? c then c - 87 else c - 55.

Fixpoint span_hex (s : jsstring) : jsstring * jsstring :=
  match s with
  | c :: r =>
      if is_hex c then let '(d, r') := span_hex r in (c :: d, r')
      else ([], s)
  | [] => ([], [])
  end.

Definition hex_digits_val (ds : jsstring) : N :=
  fold_left (fun acc c => 16 * acc + hex_val c) ds 0.

(** The global [parseInt] with no radix argument: radix 16 after a [0x] or
    [0X] prefix, radix 10 otherwise; [NaN] when no digit follows. *)
Definition parseInt (s : jsstring) : number :=
  let '(neg, u) := take_sign (trimStart s) in
  let '(ds, v) :=
    match u with
    | a :: b :: r =>
        if (a =? 48) && ((b =? 120) || (b =? 88))
        then let '(d, _) := span_hex r in (d, hex_digits_val d)
        else let '(d, _) := span_digits u in (d, digits_val d)
    | _ => let '(d, _) := span_digits u in (d, digits_val d)
    end in
  match ds with
  | [] => NaN
  | _ => of_decimal neg v 0
  end.


End JSNumber.
Import JSNumber.

(** ** The data of [src/types/index.ts] *)

Module Types.

Inductive Role := user | assistant | system.

Record Message := { role : Role; content : jsstring }.

Inductive Provider := anthropic | openai.

(** A numeric field as it stands at run time: [JSON.parse(JSON.stringify(_))]
    turns [NaN] and the infinities into [null]. *)
Inductive numval := Null | Num (x : number).

Record LLMConfig := {
  provider : Provider;
  model : jsstring;
  apiKey : option jsstring;
  temperature : numval;
  maxTokens : numval;
  systemPrompt : option jsstring;
  saveDirectory : option jsstring;
  saveFormat : option jsstring
}.

(** [Partial<LLMConfig>]: [None] is [undefined]. *)
Record PartialConfig := {
  p_provider : option Provider;
  p_model : option jsstring;
  p_apiKey : option jsstring;
  p_temperature : option numval;
  p_maxTokens : option numval;
  p_systemPrompt : option jsstring;
  p_saveDirectory : option jsstring;
  p_saveFormat : option jsstring
}.

Definition no_change : PartialConfig :=
  {| p_provider := None; p_model := None; p_apiKey := None;
     p_temperature := None; p_maxTokens := None; p_systemPrompt := None;
     p_saveDirectory := None; p_saveFormat := None |}.

Definition role_name (r : Role) : jsstring :=
  match r with
  | user => js "user"
  | assistant => js "assistant"
  | system => js "system"
  end.

Definition provider_name (p : Provider) : jsstring :=
  match p with
  | anthropic => js "anthropic"
  | openai => js "openai"
  end.

Global Instance Role_eq_dec : EqDecision Role.
Proof. solve_decision. Defined.
Global Instance Provider_eq_dec : EqDecision Provider.
Proof. solve_decision. Defined.

End Types.
Import Types.

(** ** The object store *)

Module Store.

(** What [new ChatAnthropic({...})] and [new ChatOpenAI({...})] are given. *)
Record Binding := {
  kind : Provider;
  b_apiKey : option jsstring;
  modelName : jsstring;
  b_temperature : numval;
  b_maxTokens : numval
}.

Inductive object :=
  | ConfigObject (c : LLMConfig)
  | ChatModel (b : Binding)
  | MessageArray (l : list Message).

Abbreviation loc := positive.
Abbreviation store := (gmap loc object).

(** [new]: the object is put at an address that holds nothing yet. *)
Definition alloc (o : object) (h : store) : loc * store :=
  let l := fresh (dom h) in (l, <[l := o]> h).

Global Arguments alloc : simpl never.

Definition read_config (h : store) (l : loc) : option LLMConfig :=
  match h !! l with Some (ConfigObject c) => Some c | _ => None end.

Definition read_model (h : store) (l : loc) : option Binding :=
  match h !! l with Some (ChatModel b) => Some b | _ => None end.

Definition read_messages (h : store) (l : loc) : option (list Message) :=
  match h !! l with Some (MessageArray m) => Some m | _ => None end.

(** A property assignment [o.field = v] on the config object at [l]. *)
Definition assign (l : loc) (upd : LLMConfig -> LLMConfig) (h : store)
  : store :=
  alter (fun o =>
           match o with
           | ConfigObject c => ConfigObject (upd c)
           | _ => o
           end) l h.

Definition set_temperature (v : numval) (c : LLMConfig) : LLMConfig :=
  {| provider := provider c; model := model c; apiKey := apiKey c;
     temperature := v; maxTokens := maxTokens c;
     systemPrompt := systemPrompt c; saveDirectory := saveDirectory c;
     saveFormat := saveFormat c |}.

End Store.
Import Store.

(** ** JSON text: [JSON.stringify(value, null, 2)] and [JSON.parse] *)

Module JSON.

#[local] Set Warnings "-register-all".

(** What [JSON.parse] returns. *)
Inductive json :=
  | JNull
  | JBool (b : bool)
  | JNumber (x : number)
  | JString (s : jsstring)
  | JArray (l : list json)
  | JObject (members : list (jsstring * json)).

(** The values this program serialises: strings, arrays and plain objects
    with their properties in insertion order. *)
Inductive jsvalue :=
  | VString (s : jsstring)
  | VArray (l : list jsvalue)
  | VObject (props : list (jsstring * jsvalue)).

Fixpoint reading (v : jsvalue) : json :=
  match v with
  | VString s => JString s
  | VArray l => JArray (map reading l)
  | VObject ps => JObject (map (fun kv => (fst kv, reading (snd kv))) ps)
  end.

Definition nl : jsstring := [10].
Definition gap : jsstring := [32; 32].

Definition is_lead (c : unit16) : bool := (55296 <=? c) && (c <=? 56319).
Definition is_trail (c : unit16) : bool := (56320 <=? c) && (c <=? 57343).

(** No lone surrogate: the strings that UTF-8 encoding, which
    [writeFileSync] applies, gives back on reading. *)
Fixpoint well_formed (s : jsstring) : bool :=
  match s with
  | [] => true
  | c :: r =>
      if is_lead c then
        match r with
        | d :: r' => is_trail d && well_formed r'
        | [] => false
        end
      else negb (is_trail c) && well_formed r
  end.

(** Neither half of a surrogate pair. *)
Definition plain (c : unit16) : Prop := is_lead c = false /\ is_trail c = false.

Definition hex_digit (d : N) : unit16 := if d <? 10 then 48 + d else 87 + d.

(** [UnicodeEscape]: a backslash, [u] and four lower-case hexadecimal
    digits. *)
Definition unicode_escape (c : unit16) : jsstring :=
  [92; 117; hex_digit (c / 4096 mod 16); hex_digit (c / 256 mod 16);
   hex_digit (c / 16 mod 16); hex_digit (c mod 16)].

(** One code unit that is not the lead of a surrogate pair, as
    [QuoteJSONString] writes it. *)
Definition quote_unit (c : unit16) : jsstring :=
  if c =? 8 then [92; 98]
  else if c =? 9 then [92; 116]
  else if c =? 10 then [92; 110]
  else if c =? 12 then [92; 102]
  else if c =? 13 then [92; 114]
  else if c =? 34 then [92; 34]
  else if c =? 92 then [92; 92]
  else if (c <? 32) || is_lead c || is_trail c then unicode_escape c
  else [c].

(** The body of [QuoteJSONString]: a surrogate pair goes out as it is, a
    lone surrogate escaped. *)
Fixpoint quote_body (s : jsstring) : jsstring :=
  match s with
  | [] => []
  | c :: r =>
      if is_lead c then
        match r with
        | d :: r' =>
            if is_trail d then c :: d :: quote_body r'
            else unicode_escape c ++ quote_body r
        | [] => unicode_escape c
        end
      else quote_unit c ++ quote_body r
  end.

Definition quote (s : jsstring) : jsstring := 34 :: quote_body s ++ [34].

Fixpoint join (sep : jsstring) (parts : list jsstring) : jsstring :=
  match parts with
  | [] => []
  | [p] => p
  | p :: ps => p ++ sep ++ join sep ps
  end.

(** [SerializeJSONProperty] with the gap of two spaces; [indent] is the
    indentation of the enclosing line. *)
Fixpoint stringify (indent : jsstring) (v : jsvalue) : jsstring :=
  match v with
  | VString s => quote s
  | VArray l =>
      match l with
      | [] => [91; 93]
      | _ =>
          let inner := indent ++ gap in
          [91] ++ nl ++ inner
          ++ join ([44] ++ nl ++ inner) (map (stringify inner) l)
          ++ nl ++ indent ++ [93]
      end
  | VObject ps =>
      match ps with
      | [] => [123; 125]
      | _ =>
          let inner := indent ++ gap in
          [123] ++ nl ++ inner
          ++ join ([44] ++ nl ++ inner)
               (map (fun kv => quote (fst kv) ++ [58; 32]
                                ++ stringify inner (snd kv)) ps)
          ++ nl ++ indent ++ [125]
      end
  end.

(** The number of values in [v], counting each member or element twice:
    a bound on the fuel the reader needs for the text of [v]. *)
Fixpoint size (v : jsvalue) : nat :=
  match v with
  | VString _ => 1
  | VArray l => S (list_sum (map (fun x => S (size x)) l))
  | VObject ps => S (list_sum (map (fun kv => S (size (snd kv))) ps))
  end.

(** [JSON.stringify(v, null, 2)]. *)
Definition JSON_stringify (v : jsvalue) : jsstring := stringify [] v.

(** *** The reader *)

Definition is_ws (c : unit16) : bool :=
  (c =? 9) || (c =? 10) || (c =? 13) || (c =? 32).

Fixpoint skip_ws (s : jsstring) : jsstring :=
  match s with
  | c :: r => if is_ws c then skip_ws r else s
  | [] => []
  end.

Definition hex4 (a b c d : unit16) : option unit16 :=
  if is_hex a && is_hex b && is_hex c && is_hex d
  then Some (((hex_val a * 16 + hex_val b) * 16 + hex_val c) * 16 + hex_val d)
  else None.

(** The characters of a JSON string after its opening quote, up to and
    including the closing quote; the decoded string and the rest. *)
Fixpoint parse_string_body (s : jsstring) : option (jsstring * jsstring) :=
  match s with
  | [] => None
  | c :: r =>
      if c =? 34 then Some ([], r)
      else if c =? 92 then
        match r with
        | [] => None
        | e :: r1 =>
            let escaped (u : unit16) :=
              match parse_string_body r1 with
              | Some (t, r2) => Some (u :: t, r2)
              | None => None
              end in
            if e =? 34 then escaped 34
            else if e =? 92 then escaped 92
            else if e =? 47 then escaped 47
            else if e =? 98 then escaped 8
            else if e =? 102 then escaped 12
            else if e =? 110 then escaped 10
            else if e =? 114 then escaped 13
            else if e =? 116 then escaped 9
            else if e =? 117 then
              match r1 with
              | h1 :: h2 :: h3 :: h4 :: r2 =>
                  match hex4 h1 h2 h3 h4, parse_string_body r2 with
                  | Some u, Some (t, r3) => Some (u :: t, r3)
                  | _, _ => None
                  end
              | _ => None
              end
            else None
        end
      else if c <? 32 then None
      else
        match parse_string_body r with
        | Some (t, r1) => Some (c :: t, r1)
        | None => None
        end
  end.

(** A JSON number: [-? int frac? exp?], with no leading zero in [int]. *)
Definition parse_number (s : jsstring) : option (number * jsstring) :=
  let '(neg, r0) :=
    match s with
    | c :: r => if c =? 45 then (true, r) else (false, s)
    | [] => (false, s)
    end in
  let '(ip, r1) := span_digits r0 in
  match ip with
  | [] => None
  | d :: ds =>
      if (d =? 48) && negb (bool_decide (ds = [])) then None
      else
        let frac :=
          match r1 with
          | c :: r =>
              if c =? 46 then
                let '(fp, r2) := span_digits r in
                match fp with [] => None | _ => Some (fp, r2) end
              else Some ([], r1)
          | [] => Some ([], r1)
          end in
        match frac with
        | None => None
        | Some (fp, r2) =>
            let expo :=
              match r2 with
              | c :: r =>
                  if (c =? 101) || (c =? 69) then
                    let '(eneg, r3) := take_sign r in
                    let '(es, r4) := span_digits r3 in
                    match es with
                    | [] => None
                    | _ => Some (if eneg then (- Z.of_N (digits_val es))%Z
                                 else Z.of_N (digits_val es), r4)
                    end
                  else Some (0%Z, r2)
              | [] => Some (0%Z, r2)
              end in
            match expo with
            | None => None
            | Some (e, r5) =>
                Some (of_decimal neg (digits_val (ip ++ fp))
                        (e - Z.of_nat (length fp)), r5)
            end
        end
  end.

Definition strip_prefix (p s : jsstring) : option jsstring :=
  if starts_with p s then Some (drop (length p) s) else None.

(** One JSON value at the head of [s]; [fuel] bounds the nesting and the
    number of elements. *)
Fixpoint parse_value (fuel : nat) (s : jsstring) : option (json * jsstring) :=
  match fuel with
  | O => None
  | S n =>
      match s with
      | [] => None
      | c :: r =>
          if c =? 34 then
            match parse_string_body r with
            | Some (t, r1) => Some (JString t, r1)
            | None => None
            end
          else if c =? 91 then
            match skip_ws r with
            | d :: r1 =>
                if d =? 93 then Some (JArray [], r1)
                else
                  match parse_elements n (d :: r1) with
                  | Some (vs, r2) => Some (JArray vs, r2)
                  | None => None
                  end
            | [] => None
            end
          else if c =? 123 then
            match skip_ws r with
            | d :: r1 =>
                if d =? 125 then Some (JObject [], r1)
                else
                  match parse_members n (d :: r1) with
                  | Some (ms, r2) => Some (JObject ms, r2)
                  | None => None
                  end
            | [] => None
            end
          else if c =? 116 then
            match strip_prefix (js "true") s with
            | Some r1 => Some (JBool true, r1)
            | None => None
            end
          else if c =? 102 then
            match strip_prefix (js "false") s with
            | Some r1 => Some (JBool false, r1)
            | None => None
            end
          else if c =? 110 then
            match strip_prefix (js "null") s with
            | Some r1 => Some (JNull, r1)
            | None => None
            end
          else
            match parse_number s with
            | Some (x, r1) => Some (JNumber x, r1)
            | None => None
            end
      end
  end
with parse_elements (fuel : nat) (s : jsstring)
  : option (list json * jsstring) :=
  match fuel with
  | O => None
  | S n =>
      match parse_value n (skip_ws s) with
      | None => None
      | Some (v, r) =>
          match skip_ws r with
          | d :: r1 =>
              if d =? 44 then
                match parse_elements n r1 with
                | Some (vs, r2) => Some (v :: vs, r2)
                | None => None
                end
              else if d =? 93 then Some ([v], r1)
              else None
          | [] => None
          end
      end
  end
with parse_members (fuel : nat) (s : jsstring)
  : option (list (jsstring * json) * jsstring) :=
  match fuel with
  | O => None
  | S n =>
      match skip_ws s with
      | q :: r0 =>
          if q =? 34 then
            match parse_string_body r0 with
            | None => None
            | Some (k, r1) =>
                match skip_ws r1 with
                | c :: r2 =>
                    if c =? 58 then
                      match parse_value n (skip_ws r2) with
                      | None => None
                      | Some (v, r3) =>
                          match skip_ws r3 with
                          | d :: r4 =>
                              if d =? 44 then
                                match parse_members n r4 with
                                | Some (ms, r5) => Some ((k, v) :: ms, r5)
                                | None => None
                                end
                              else if d =? 125 then Some ([(k, v)], r4)
                              else None
                          | [] => None
                          end
                      end
                    else None
                | [] => None
                end
            end
          else None
      | [] => None
      end
  end.

(** [JSON.parse]: one value with white space around it, or a
    [SyntaxError] ([None]). *)
Definition JSON_parse (text : jsstring) : option json :=
  match parse_value (length text) (skip_ws text) with
  | Some (v, r) => match skip_ws r with [] => Some v | _ => None end
  | None => None
  end.

(** *** Notions for the proofs about the reader *)

(** What the reader makes of the text after one more unit. *)
Definition prepend (c : unit16) (o : option (jsstring * jsstring))
  : option (jsstring * jsstring) :=
  match o with
  | Some (t, r) => Some (c :: t, r)
  | None => None
  end.

(** Text made of JSON white space only. *)
Definition ws_only (w : jsstring) : Prop :=
  Forall (fun c => is_ws c = true) w.

(** A value's text starts with a quote, a bracket or a brace. *)
Definition opener (d : unit16) : Prop := d = 34 \/ d = 91 \/ d = 123.

(** What the reader is to do with the text of [v]. *)
Definition reads_back (v : jsvalue) : Prop :=
  forall indent rest fuel,
    ws_only indent -> (size v <= fuel)%nat ->
    parse_value fuel (stringify indent v ++ rest) = Some (reading v, rest).

(** Property lookup on a parsed object: the last member of that name. *)
Fixpoint get_member (k : jsstring) (ms : list (jsstring * json)) : option json :=
  match ms with
  | [] => None
  | (k', v) :: r =>
      match get_member k r with
      | Some w => Some w
      | None => if JSString.eqb k k' then Some v else None
      end
  end.

Definition get (k : jsstring) (v : json) : option json :=
  match v with JObject ms => get_member k ms | _ => None end.

End JSON.
Import JSON.

(** ** [src/services/llmService.ts] *)

Module Service.

(** The variables of [process.env] the program reads. *)
Record ProcessEnv := {
  ANTHROPIC_API_KEY : option jsstring;
  OPENAI_API_KEY : option jsstring;
  CHAT_SAVE_DIRECTORY : option jsstring;
  CHAT_SAVE_FORMAT : option jsstring
}.

(** [availableModels]. *)
Definition availableModels (p : Provider) : list jsstring :=
  match p with
  | anthropic =>
      [js "claude-3-7-sonnet-20250219"; js "claude-3-5-haiku-20241022";
       js "claude-3-5-sonnet-20241022"; js "claude-3-5-sonnet-20240620";
       js "claude-3-opus-20240229"; js "claude-3-sonnet-20240229";
       js "claude-3-haiku-20240307"]
  | openai => [js "gpt-4-turbo"; js "gpt-4o"; js "gpt-4"; js "gpt-3.5-turbo"]
  end.

Definition num_0_7 : number := Eval vm_compute in of_decimal false 7 (-1).
Definition num_1000 : number := Eval vm_compute in of_N 1000.

(** [defaultConfig]. *)
Definition defaultConfig (env : ProcessEnv) : LLMConfig :=
  {| provider := anthropic;
     model := js "claude-3-opus-20240229";
     apiKey := None;
     temperature := Num num_0_7;
     maxTokens := Num num_1000;
     systemPrompt := Some (js "You are a helpful AI assistant.");
     saveDirectory := Some (or_default (CHAT_SAVE_DIRECTORY env) (js "./chats"));
     saveFormat :=
       Some (if bool_decide (CHAT_SAVE_FORMAT env = Some (js "markdown"))
             then js "markdown" else js "json") |}.

(** The object [this]: its two private fields hold references. *)
Record LLMService := { this_model : loc; this_config : loc }.

Record State := { heap : store; this : LLMService }.

(** The argument of the provider client's constructor, as both the
    constructor and [updateConfig] build it. *)
Definition binding (env : ProcessEnv) (c : LLMConfig) : Binding :=
  match provider c with
  | anthropic =>
      {| kind := anthropic;
         b_apiKey := or_str (apiKey c) (ANTHROPIC_API_KEY env);
         modelName := or_default (Some (model c)) (js "claude-3-opus-20240229");
         b_temperature := temperature c;
         b_maxTokens := maxTokens c |}
  | openai =>
      {| kind := openai;
         b_apiKey := or_str (apiKey c) (OPENAI_API_KEY env);
         modelName := or_default (Some (model c)) (js "gpt-4-turbo");
         b_temperature := temperature c;
         b_maxTokens := maxTokens c |}
  end.

(** [new LLMService(config)]: the field keeps the caller's object. *)
Definition constructor (env : ProcessEnv) (config : loc) (h : store)
  : option State :=
  c ← read_config h config;
  let '(m, h1) := alloc (ChatModel (binding env c)) h in
  Some {| heap := h1; this := {| this_model := m; this_config := config |} |}.

(** LangChain's message classes. *)
Inductive BaseMessage :=
  | HumanMessage (text : jsstring)
  | AIMessage (text : jsstring)
  | SystemMessage (text : jsstring).

Definition convertToLangChainMessages (messages : list Message)
  : list BaseMessage :=
  map (fun msg =>
         match role msg with
         | user => HumanMessage (content msg)
         | assistant => AIMessage (content msg)
         | system => SystemMessage (content msg)
         end) messages.

(** A call either returns or throws an [Error] with a message. *)
Inductive outcome (A : Type) :=
  | Returns (a : A)
  | Throws (message : jsstring).
Global Arguments Returns {A} a.
Global Arguments Throws {A} message.

(** One [invoke] on a provider client: the client and what it was given. *)
Record Invocation := { callee : loc; given : list BaseMessage }.

Record Sending := {
  answer : outcome jsstring;
  invocations : list Invocation;
  after : State
}.

(** [sendMessage(messages)]; [invoke] is the provider behind the client. *)
Definition sendMessage
    (invoke : Binding -> list BaseMessage -> outcome jsstring)
    (messages : loc) (st : State) : option Sending :=
  msgs ← read_messages (heap st) messages;
  cfg ← read_config (heap st) (this_config (this st));
  client ← read_model (heap st) (this_model (this st));
  let langchainMessages := convertToLangChainMessages msgs in
  let langchainMessages :=
    if truthy_str (systemPrompt cfg)
       && negb (existsb (fun msg => bool_decide (role msg = system)) msgs)
    then SystemMessage (default [] (systemPrompt cfg)) :: langchainMessages
    else langchainMessages in
  let result :=
    match invoke client langchainMessages with
    | Returns text => Returns text
    | Throws message =>
        Throws (js "Failed to get response from "
                ++ provider_name (provider cfg) ++ js ": " ++ message)
    end in
  Some {| answer := result;
          invocations := [ {| callee := this_model (this st);
                              given := langchainMessages |} ];
          after := st |}.

(** [getConfig()]. *)
Definition getConfig (st : State) : loc := this_config (this st).

(** The copy [{ ...this.config }] with the provided fields written over it. *)
Definition merge (c : LLMConfig) (n : PartialConfig) : LLMConfig :=
  {| provider := default (provider c) (p_provider n);
     model := default (model c) (p_model n);
     apiKey := match p_apiKey n with Some k => Some k | None => apiKey c end;
     temperature := default (temperature c) (p_temperature n);
     maxTokens := default (maxTokens c) (p_maxTokens n);
     systemPrompt :=
       match p_systemPrompt n with Some k => Some k | None => systemPrompt c end;
     saveDirectory :=
       match p_saveDirectory n with Some k => Some k | None => saveDirectory c end;
     saveFormat :=
       match p_saveFormat n with Some k => Some k | None => saveFormat c end |}.

(** A number through [JSON.parse(JSON.stringify(_))]: [NaN] and the
    infinities come back as [null], [-0] as [0], any other number as
    itself. *)
Definition clone_num (v : numval) : numval :=
  match v with
  | Null => Null
  | Num (S754_zero _) => Num (S754_zero false)
  | Num (S754_finite s m e) => Num (S754_finite s m e)
  | Num _ => Null
  end.

(** A config object through [JSON.parse(JSON.stringify(_))]: a new object;
    strings survive, [undefined] properties are left out. *)
Definition clone_config (c : LLMConfig) : LLMConfig :=
  {| provider := provider c; model := model c; apiKey := apiKey c;
     temperature := clone_num (temperature c);
     maxTokens := clone_num (maxTokens c);
     systemPrompt := systemPrompt c; saveDirectory := saveDirectory c;
     saveFormat := saveFormat c |}.

(** [updateConfig(newConfig)]. The spread copy [updatedConfig] is a local
    that nothing refers to after the call; the two objects the session keeps
    are the parsed clone and the new client. *)
Definition updateConfig (env : ProcessEnv) (newConfig : PartialConfig)
    (st : State) : option State :=
  cur ← read_config (heap st) (this_config (this st));
  let updatedConfig := merge cur newConfig in
  let '(c, h1) := alloc (ConfigObject (clone_config updatedConfig)) (heap st) in
  let '(m, h2) :=
    alloc (ChatModel (binding env (clone_config updatedConfig))) h1 in
  Some {| heap := h2; this := {| this_model := m; this_config := c |} |}.

(** What a holder of a reference can do: [ref.field = v]. *)
Definition mutate (l : loc) (upd : LLMConfig -> LLMConfig) (st : State)
  : State :=
  {| heap := assign l upd (heap st); this := this st |}.

(** [src/index.tsx]: [new LLMService(defaultConfig)], the exported object
    itself. *)
Definition start (env : ProcessEnv) : option State :=
  let '(l, h) := alloc (ConfigObject (defaultConfig env)) ∅ in
  constructor env l h.

(** *** The file system, as far as [saveChat] uses it *)

Record FS := {
  dirs : gset jsstring;
  files : gmap jsstring jsstring
}.

(** What the host decides about the calls of one [saveChat]: whether
    [mkdirSync] and [writeFileSync] throw, with which message, and what a
    failed write leaves at the path ([None]: nothing). *)
Record Faults := {
  mkdir_error : option jsstring;
  write_error : option jsstring;
  write_leaves : option jsstring
}.

Definition no_faults : Faults :=
  {| mkdir_error := None; write_error := None; write_leaves := None |}.

(** The three readings of the clock in one [saveChat]. *)
Record Clock := {
  iso_for_name : jsstring;   (* new Date().toISOString(), for the name *)
  locale_string : jsstring;  (* new Date().toLocaleString() *)
  iso_for_data : jsstring    (* new Date().toISOString(), for the data *)
}.

(** Code that may throw, over the file system. *)
Definition IO (A : Type) := FS -> outcome A * FS.

Definition ret {A} (a : A) : IO A := fun fs => (Returns a, fs).
Definition throw {A} (message : jsstring) : IO A :=
  fun fs => (Throws message, fs).
Definition bind {A B} (m : IO A) (k : A -> IO B) : IO B :=
  fun fs =>
    match m fs with
    | (Returns a, fs1) => k a fs1
    | (Throws e, fs1) => (Throws e, fs1)
    end.
Definition try_catch {A} (body : IO A) (handler : jsstring -> IO A) : IO A :=
  fun fs =>
    match body fs with
    | (Returns a, fs1) => (Returns a, fs1)
    | (Throws e, fs1) => handler e fs1
    end.

Global Instance IO_ret : MRet IO := @ret.
Global Instance IO_bind : MBind IO := fun A B k m => bind m k.

(** Is there a directory or a file at [p]. *)
Definition present (fs : FS) (p : jsstring) : bool :=
  bool_decide (p ∈ dirs fs) || bool_decide (is_Some (files fs !! p)).

Definition existsSync (p : jsstring) : IO bool :=
  fun fs => (Returns (present fs p), fs).

(** The file system once [mkdirSync(d, { recursive: true })] has run where
    needed. *)
Definition with_dir (fs : FS) (d : jsstring) : FS :=
  if present fs d then fs
  else {| dirs := {[ d ]} ∪ dirs fs; files := files fs |}.

Definition mkdirSync (flt : Faults) (p : jsstring) : IO unit :=
  fun fs =>
    match mkdir_error flt with
    | Some e => (Throws e, fs)
    | None => (Returns tt, {| dirs := {[ p ]} ∪ dirs fs; files := files fs |})
    end.

Definition writeFileSync (flt : Faults) (p data : jsstring) : IO unit :=
  fun fs =>
    match write_error flt with
    | Some e =>
        (Throws e,
         match write_leaves flt with
         | Some torn => {| dirs := dirs fs; files := <[p := torn]> (files fs) |}
         | None => fs
         end)
    | None =>
        (Returns tt, {| dirs := dirs fs; files := <[p := data]> (files fs) |})
    end.

(** A call of the file system throws during a save into [dir], with the
    message [e]: [mkdirSync] when it is called, or else [writeFileSync]. *)
Definition fs_failure (flt : Faults) (fs : FS) (dir e : jsstring) : Prop :=
  (present fs dir = false /\ mkdir_error flt = Some e)
  \/ ((present fs dir = true \/ mkdir_error flt = None)
      /\ write_error flt = Some e).

Inductive Format := markdown | json_format.

(** [title.replace(/[^a-z0-9]/gi, '-').toLowerCase()]. Without the [u]
    flag, [i] compares code units through their upper-case forms and leaves
    a unit above U+007F alone when its upper-case form is below it, so the
    class [[^a-z0-9]] with [i] holds every unit that is not an ASCII letter
    or digit. *)
Definition slug (title : jsstring) : jsstring :=
  toLowerCase (replace_class (fun c => negb (is_alnum c)) 45 title).

(** [new Date().toISOString().replace(/[:.]/g, '-')]. *)
Definition name_stamp (iso : jsstring) : jsstring :=
  replace_class (fun c => (c =? 58) || (c =? 46)) 45 iso.

Definition formatToUse (c : LLMConfig) : Format :=
  if bool_decide (saveFormat c = Some (js "markdown")) then markdown
  else json_format.

Definition fileExtension (f : Format) : jsstring :=
  match f with markdown => js "md" | json_format => js "json" end.

Definition filename (c : LLMConfig) (clk : Clock) (title : option jsstring)
  : jsstring :=
  let timestamp := name_stamp (iso_for_name clk) in
  if truthy_str title
  then timestamp ++ js "-" ++ slug (default [] title) ++ js "."
       ++ fileExtension (formatToUse c)
  else timestamp ++ js "-chat." ++ fileExtension (formatToUse c).

(** The text the [forEach] adds for one message. *)
Definition markdownSection (msg : Message) : jsstring :=
  match role msg with
  | system => js "## System" ++ nl ++ nl ++ content msg ++ nl ++ nl
              ++ js "---" ++ nl ++ nl
  | user => js "## User" ++ nl ++ nl ++ content msg ++ nl ++ nl
            ++ js "---" ++ nl ++ nl
  | assistant => js "## Assistant" ++ nl ++ nl ++ content msg ++ nl ++ nl
                 ++ js "---" ++ nl ++ nl
  end.

Definition markdownContent (c : LLMConfig) (clk : Clock)
    (messages : list Message) : jsstring :=
  fold_left (fun acc msg => acc ++ markdownSection msg) messages
    (js "# Chat - " ++ locale_string clk ++ nl ++ nl
     ++ js "**Model**: " ++ model c ++ js " (" ++ provider_name (provider c)
     ++ js ")" ++ nl ++ nl
     ++ js "---" ++ nl ++ nl).

Definition messageValue (msg : Message) : jsvalue :=
  VObject [(js "role", VString (role_name (role msg)));
           (js "content", VString (content msg))].

(** The object [chatData]. *)
Definition chatData (c : LLMConfig) (clk : Clock) (messages : list Message)
  : jsvalue :=
  VObject [(js "timestamp", VString (iso_for_data clk));
           (js "model", VString (model c));
           (js "provider", VString (provider_name (provider c)));
           (js "messages", VArray (map messageValue messages))].

(** Reading a parsed transcript back: the messages of a JSON array of
    [{role, content}] objects. *)
Definition role_of_name (s : jsstring) : option Role :=
  if JSString.eqb s (js "user") then Some user
  else if JSString.eqb s (js "assistant") then Some assistant
  else if JSString.eqb s (js "system") then Some system
  else None.

Definition message_of (v : json) : option Message :=
  match get (js "role") v, get (js "content") v with
  | Some (JString r), Some (JString c) =>
      match role_of_name r with
      | Some ro => Some {| role := ro; content := c |}
      | None => None
      end
  | _, _ => None
  end.

Definition messages_of (v : json) : option (list Message) :=
  match v with
  | JArray l => mapM message_of l
  | _ => None
  end.

Definition fileContent (c : LLMConfig) (clk : Clock) (messages : list Message)
  : jsstring :=
  match formatToUse c with
  | markdown => markdownContent c clk messages
  | json_format => JSON_stringify (chatData c clk messages)
  end.

Section SaveChat.

Variable env : ProcessEnv.
(** [path.join] of the host platform. *)
Variable path_join : jsstring -> jsstring -> jsstring.

Definition saveDir (c : LLMConfig) : jsstring :=
  or_default (saveDirectory c)
    (or_default (CHAT_SAVE_DIRECTORY env) (js "./chats")).

Definition filePath (c : LLMConfig) (clk : Clock) (title : option jsstring)
  : jsstring :=
  path_join (saveDir c) (filename c clk title).

(** The body of [saveChat], on the config object read from
    [this.config]. *)
Definition saveChat_with (c : LLMConfig) (clk : Clock) (flt : Faults)
    (messages : list Message) (title : option jsstring) : IO jsstring :=
  try_catch
    (present ← existsSync (saveDir c);
     (if negb present then mkdirSync flt (saveDir c) else ret tt);;
     writeFileSync flt (filePath c clk title) (fileContent c clk messages);;
     ret (filePath c clk title))
    (fun message => throw (js "Failed to save chat: " ++ message)).

(** [saveChat(messages, title)]. *)
Definition saveChat (st : State) (clk : Clock) (flt : Faults)
    (messages : list Message) (title : option jsstring) (fs : FS)
  : option (outcome jsstring * FS) :=
  c ← read_config (heap st) (this_config (this st));
  Some (saveChat_with c clk flt messages title fs).

End SaveChat.

End Service.
Import Service.

(** ** [src/components/SettingsInterface.tsx] *)

Module Settings.

(** The state of the form: what the [useState] hooks hold. *)
Record Form := {
  f_provider : Provider;
  f_model : jsstring;
  f_apiKey : jsstring;
  f_temperature : jsstring;
  f_maxTokens : jsstring;
  f_systemPrompt : jsstring;
  f_saveFormat : jsstring
}.

Definition setProvider (p : Provider) (f : Form) : Form :=
  {| f_provider := p; f_model := f_model f; f_apiKey := f_apiKey f;
     f_temperature := f_temperature f; f_maxTokens := f_maxTokens f;
     f_systemPrompt := f_systemPrompt f; f_saveFormat := f_saveFormat f |}.

Definition setModel (m : jsstring) (f : Form) : Form :=
  {| f_provider := f_provider f; f_model := m; f_apiKey := f_apiKey f;
     f_temperature := f_temperature f; f_maxTokens := f_maxTokens f;
     f_systemPrompt := f_systemPrompt f; f_saveFormat := f_saveFormat f |}.

(** The effect that runs when [provider] changes (and on mount):
    [if (!availableModels[provider].includes(model))
       setModel(availableModels[provider][0])]. *)
Definition providerEffect (f : Form) : Form :=
  if negb (includes (availableModels (f_provider f)) (f_model f))
  then match availableModels (f_provider f) with
       | first :: _ => setModel first f
       | [] => f
       end
  else f.

(** Choosing a provider in the select, then the effect. *)
Definition chooseProvider (p : Provider) (f : Form) : Form :=
  providerEffect (setProvider p f).

(** [s || undefined]. *)
Definition or_undefined (s : jsstring) : option jsstring :=
  match s with [] => None | _ => Some s end.

(** The object [newConfig] of [saveSettings]. *)
Definition newConfig (f : Form) (current : LLMConfig) : LLMConfig :=
  {| provider := f_provider f;
     model := f_model f;
     apiKey := or_undefined (f_apiKey f);
     temperature := Num (or_num (parseFloat (f_temperature f)) num_0_7);
     maxTokens := Num (or_num (parseInt (f_maxTokens f)) num_1000);
     systemPrompt := or_undefined (f_systemPrompt f);
     saveDirectory := saveDirectory current;
     saveFormat := Some (f_saveFormat f) |}.

(** An object as [updateConfig] receives it: every property that is not
    [undefined] counts as provided. *)
Definition as_partial (c : LLMConfig) : PartialConfig :=
  {| p_provider := Some (provider c);
     p_model := Some (model c);
     p_apiKey := apiKey c;
     p_temperature := Some (temperature c);
     p_maxTokens := Some (maxTokens c);
     p_systemPrompt := systemPrompt c;
     p_saveDirectory := saveDirectory c;
     p_saveFormat := saveFormat c |}.

(** [saveSettings()], up to the [onSave] callback. *)
Definition saveSettings (env : ProcessEnv) (f : Form) (st : State)
  : option State :=
  current ← read_config (heap st) (getConfig st);
  updateConfig env (as_partial (clone_config (newConfig f current))) st.

End Settings.
Import Settings.

(** ** Concrete inputs *)

Module Examples.

Definition env0 : ProcessEnv :=
  {| ANTHROPIC_API_KEY := None; OPENAI_API_KEY := None;
     CHAT_SAVE_DIRECTORY := None; CHAT_SAVE_FORMAT := None |}.

(** The session right after [start env0]. *)
Definition st0 : State :=
  {| heap := <[2%positive := ChatModel (binding env0 (defaultConfig env0))]>
               (<[1%positive := ConfigObject (defaultConfig env0)]> ∅);
     this := {| this_model := 2%positive; this_config := 1%positive |} |}.

(** The same session holding one conversation of the UI shell. *)
Definition hi_hello : list Message :=
  [ {| role := user; content := js "hi" |};
    {| role := assistant; content := js "hello" |} ].

Definition st_chat : State :=
  {| heap := <[3%positive := MessageArray hi_hello]> (heap st0);
     this := this st0 |}.

Definition clk0 : Clock :=
  {| iso_for_name := js "2025-01-02T03:04:05.678Z";
     locale_string := js "1/2/2025, 3:04:05 AM";
     iso_for_data := js "2025-01-02T03:04:05.679Z" |}.

Definition fs0 : FS := {| dirs := ∅; files := ∅ |}.

(** [path.join] on a directory and a file name that need no
    normalisation. *)
Definition join2 (d f : jsstring) : jsstring := d ++ js "/" ++ f.

(** The config of the markdown scenario. *)
Definition cfg_md : LLMConfig :=
  {| provider := anthropic; model := js "m1"; apiKey := None;
     temperature := Num num_0_7; maxTokens := Num num_1000;
     systemPrompt := None; saveDirectory := None;
     saveFormat := Some (js "markdown") |}.

Definition st_md : State :=
  {| heap := <[2%positive := ChatModel (binding env0 cfg_md)]>
               (<[1%positive := ConfigObject cfg_md]> ∅);
     this := {| this_model := 2%positive; this_config := 1%positive |} |}.

(** A config whose [saveFormat] is absent. *)
Definition cfg_plain : LLMConfig :=
  {| provider := openai; model := js "gpt-4o"; apiKey := None;
     temperature := Num num_0_7; maxTokens := Num num_1000;
     systemPrompt := None; saveDirectory := None; saveFormat := None |}.

Definition st_plain : State :=
  {| heap := <[2%positive := ChatModel (binding env0 cfg_plain)]>
               (<[1%positive := ConfigObject cfg_plain]> ∅);
     this := {| this_model := 2%positive; this_config := 1%positive |} |}.

Definition only_provider (p : Provider) : PartialConfig :=
  {| p_provider := Some p; p_model := None; p_apiKey := None;
     p_temperature := None; p_maxTokens := None; p_systemPrompt := None;
     p_saveDirectory := None; p_saveFormat := None |}.


(** The form as it opens on [st0], with what the user typed. *)
Definition form0 (temperature maxTokens : jsstring) : Form :=
  {| f_provider := anthropic; f_model := js "claude-3-opus-20240229";
     f_apiKey := []; f_temperature := temperature; f_maxTokens := maxTokens;
     f_systemPrompt := js "You are a helpful AI assistant.";
     f_saveFormat := js "json" |}.

(** A provider that answers every call with the same text. *)
Definition echo (_ : Binding) (_ : list BaseMessage) : outcome jsstring :=
  Returns (js "ok").

Definition disk_full : Faults :=
  {| mkdir_error := None;
     write_error := Some (js "ENOSPC: no space left on device, write");
     write_leaves := None |}.

End Examples.
Import Examples.

(** ** [String.prototype.trim] *)

Module Text.

Definition trimEnd (s : jsstring) : jsstring := rev (trimStart (rev s)).

Definition trim (s : jsstring) : jsstring := trimEnd (trimStart s).

(** [!s] on a string: only the empty string is falsy. *)
Definition falsy (s : jsstring) : bool :=
  match s with
  | [] => true
  | _ :: _ => false
  end.

End Text.
Import Text.

(** ** [SelectInput] of [src/components/SelectInput.tsx] *)

Module Select.

Local Open Scope Z_scope.

(** [items.findIndex(item => item === value)], counting from [i]. *)
Fixpoint findIndex_from (items : list jsstring) (value : jsstring) (i : Z) : Z :=
  match items with
  | [] => -1
  | item :: rest =>
      if JSString.eqb item value then i else findIndex_from rest value (i + 1)
  end.

Definition findIndex (items : list jsstring) (value : jsstring) : Z :=
  findIndex_from items value 0.

(** [items.length]. *)
Definition len (items : list jsstring) : Z := Z.of_nat (length items).

(** [items[i]]: [undefined] outside the array. *)
Definition at_index (items : list jsstring) (i : Z) : option jsstring :=
  if i <? 0 then None else items !! Z.to_nat i.

(** [Math.max(0, items.findIndex(item => item === value))]. *)
Definition initialIndex (items : list jsstring) (value : jsstring) : Z :=
  Z.max 0 (findIndex items value).

(** The effect on [value] and [items]. *)
Definition valueEffect (items : list jsstring) (value : jsstring)
    (highlightedIndex : Z) : Z :=
  let index := findIndex items value in
  if negb (index =? -1) then index else highlightedIndex.

(** The index a new [SelectInput] shows: its initial state, then the
    effect. *)
Definition mounted (items : list jsstring) (value : jsstring) : Z :=
  valueEffect items value (initialIndex items value).

Definition upArrow (items : list jsstring) (highlightedIndex : Z) : Z :=
  if highlightedIndex >? 0 then highlightedIndex - 1 else len items - 1.

Definition downArrow (items : list jsstring) (highlightedIndex : Z) : Z :=
  if highlightedIndex <? len items - 1 then highlightedIndex + 1 else 0.

(** [key.return]: the value handed to [onChange]. *)
Definition selectedValue (items : list jsstring) (highlightedIndex : Z)
  : option jsstring :=
  at_index items highlightedIndex.

(** The index points into the array. *)
Definition in_range (items : list jsstring) (i : Z) : Prop :=
  0 <= i < len items.

End Select.
Import Select.

(** ** [ChatInterface] and [MessageInput] *)

Module Chat.

(** The state of [ChatInterface] and of the [MessageInput] inside it. *)
Record ChatState := {
  messages : list Message;
  isLoading : bool;
  saveStatus : option jsstring;
  input : jsstring
}.

(** What the [useState] hooks start with. *)
Definition initialChat : ChatState :=
  {| messages := []; isLoading := false; saveStatus := None; input := [] |}.

Definition userMessage (value : jsstring) : Message :=
  {| role := user; content := value |}.

Definition assistantMessage (response : jsstring) : Message :=
  {| role := assistant; content := response |}.

(** What [sendMessage] hands to the client for the conversation [msgs]
    under the config [cfg]. *)
Definition handed (cfg : LLMConfig) (msgs : list Message) : list BaseMessage :=
  if truthy_str (systemPrompt cfg)
     && negb (existsb (fun msg => bool_decide (role msg = system)) msgs)
  then SystemMessage (default [] (systemPrompt cfg))
       :: convertToLangChainMessages msgs
  else convertToLangChainMessages msgs.

(** A string of white space only, the empty one included. *)
Definition blank (s : jsstring) : Prop := Forall (fun c => is_space c = true) s.

Record Submitted := {
  chat : ChatState;
  session : State;
  calls : list Invocation
}.

(** [ChatInterface]'s [handleSubmit(value)], run to its end: the [await]
    is over before anything else happens. The array
    [[...messages, userMessage]] is a new object. *)
Definition handleSubmit
    (invoke : Binding -> list BaseMessage -> outcome jsstring)
    (value : jsstring) (c : ChatState) (st : State) : option Submitted :=
  if falsy (trim value) then
    Some {| chat := c; session := st; calls := [] |}
  else
    let '(messagesWithSystem, h) :=
      alloc (MessageArray (messages c ++ [userMessage value])) (heap st) in
    s ← sendMessage invoke messagesWithSystem {| heap := h; this := this st |};
    Some {| chat :=
              {| messages :=
                   match answer s with
                   | Returns response =>
                       (messages c ++ [userMessage value])
                       ++ [assistantMessage response]
                   | Throws _ => messages c ++ [userMessage value]
                   end;
                 isLoading := false;
                 saveStatus := saveStatus c;
                 input := input c |};
            session := after s;
            calls := invocations s |}.

(** [MessageInput]'s [handleSubmit(value)], with [ChatInterface]'s
    [handleSubmit] as [onSubmit]; [TextInput] calls it on Enter with the
    text of the field. *)
Definition submitInput
    (invoke : Binding -> list BaseMessage -> outcome jsstring)
    (c : ChatState) (st : State) : option Submitted :=
  if falsy (trim (input c)) then
    Some {| chat := c; session := st; calls := [] |}
  else
    r ← handleSubmit invoke (input c) c st;
    Some {| chat :=
              {| messages := messages (chat r); isLoading := isLoading (chat r);
                 saveStatus := saveStatus (chat r); input := [] |};
            session := session r;
            calls := calls r |}.

(** The Ctrl+S branch of [ChatInterface]'s input handler, up to the timer
    that clears the status later. *)
Definition saveShortcut (env : ProcessEnv)
    (path_join : jsstring -> jsstring -> jsstring) (clk : Clock)
    (flt : Faults) (c : ChatState) (st : State) (fs : FS)
  : option (ChatState * FS) :=
  let with_status (text : jsstring) : ChatState :=
    {| messages := messages c; isLoading := isLoading c;
       saveStatus := Some text; input := input c |} in
  if (0 <? length (messages c))%nat then
    r ← saveChat env path_join st clk flt (messages c) None fs;
    match r with
    | (Returns savedPath, fs') =>
        Some (with_status (js "Chat saved to: " ++ savedPath), fs')
    | (Throws message, fs') =>
        Some (with_status (js "Error saving chat: " ++ message), fs')
    end
  else Some (with_status (js "No messages to save"), fs).

Inductive Color := red | green.

(** [saveStatus.includes('Error') ? 'red' : 'green']. *)
Definition statusColor (status : jsstring) : Color :=
  if contains (js "Error") status then red else green.

End Chat.
Import Chat.

(** ** The settings panel: fields, keys and the two selects *)

Module Panel.

Inductive Field :=
  | provider_field
  | model_field
  | apiKey_field
  | temperature_field
  | maxTokens_field
  | systemPrompt_field
  | saveFormat_field.

(** What is on screen in the settings view: the form, the field in focus
    and the highlighted index of the select of that field, if it is one. *)
Record Panel := {
  form : Form;
  currentField : Field;
  highlightedIndex : Z
}.

(** The items of the provider select. *)
Definition providers : list jsstring := [js "anthropic"; js "openai"].

Definition provider_of_name (s : jsstring) : option Provider :=
  if JSString.eqb s (js "anthropic") then Some anthropic
  else if JSString.eqb s (js "openai") then Some openai
  else None.

(** The text of a numeric field of the config: [n.toString()], a
    [TypeError] ([None]) on [null]. *)
Definition field_text (toString : number -> jsstring) (v : numval)
  : option jsstring :=
  match v with
  | Num x => Some (toString x)
  | Null => None
  end.

(** The state the [useState] hooks of [SettingsInterface] start with. *)
Definition initialForm (toString : number -> jsstring) (c : LLMConfig)
  : option Form :=
  temperature ← field_text toString (temperature c);
  maxTokens ← field_text toString (maxTokens c);
  Some {| f_provider := provider c;
          f_model := model c;
          f_apiKey := or_default (apiKey c) [];
          f_temperature := temperature;
          f_maxTokens := maxTokens;
          f_systemPrompt :=
            or_default (systemPrompt c) (js "You are a helpful AI assistant.");
          f_saveFormat := or_default (saveFormat c) (js "json") |}.

Definition setSaveFormat (s : jsstring) (f : Form) : Form :=
  {| f_provider := f_provider f; f_model := f_model f; f_apiKey := f_apiKey f;
     f_temperature := f_temperature f; f_maxTokens := f_maxTokens f;
     f_systemPrompt := f_systemPrompt f; f_saveFormat := s |}.

(** The panel once mounted on the config [c]: the initial state, then the
    two effects, with the provider select on screen. *)
Definition openPanel (toString : number -> jsstring) (c : LLMConfig)
  : option Panel :=
  f ← initialForm toString c;
  Some {| form :=
            setSaveFormat (or_default (saveFormat c) (js "json"))
              (providerEffect f);
          currentField := provider_field;
          highlightedIndex := mounted providers (provider_name (provider c)) |}.

(** The order of the fields in the main input handler. *)
Definition nextField (fld : Field) : Field :=
  match fld with
  | provider_field => model_field
  | model_field => apiKey_field
  | apiKey_field => temperature_field
  | temperature_field => maxTokens_field
  | maxTokens_field => systemPrompt_field
  | systemPrompt_field => saveFormat_field
  | saveFormat_field => saveFormat_field
  end.

(** The index the select of the field [fld] shows when it is mounted for
    the form [f] whose model was [before] at the first render. *)
Definition select_index (fld : Field) (before : jsstring) (f : Form) : Z :=
  match fld with
  | provider_field => mounted providers (provider_name (f_provider f))
  | model_field =>
      valueEffect (availableModels (f_provider f)) (f_model f)
        (mounted (availableModels (f_provider f)) before)
  | _ => 0%Z
  end.

(** One of the two formats of [LLMConfig]. *)
Definition recognised (s : jsstring) : Prop :=
  s = js "json" \/ s = js "markdown".

(** [saveFormat === 'json' ? 'markdown' : 'json']. *)
Definition toggleFormat (s : jsstring) : jsstring :=
  if JSString.eqb s (js "json") then js "markdown" else js "json".

Record Pressed := {
  panel : Panel;
  state : State;
  saved : nat   (* how many times [onSave] was called *)
}.

(** Tab: the main input handler alone. *)
Definition onTab (env : ProcessEnv) (p : Panel) (st : State) : option Pressed :=
  match currentField p with
  | saveFormat_field =>
      st' ← saveSettings env (form p) st;
      Some {| panel := p; state := st'; saved := 1 |}
  | fld =>
      Some {| panel :=
                {| form := form p; currentField := nextField fld;
                   highlightedIndex :=
                     select_index (nextField fld) (f_model (form p)) (form p) |};
              state := st; saved := 0 |}
  end.

(** Enter: the select or the text input of the field in focus, the main
    input handler and the handler of the format field all see the key. A
    select whose index is outside its list hands [undefined] to [onChange];
    the form has no place for that value and the panel stops there
    ([None]). *)
Definition onReturn (env : ProcessEnv) (p : Panel) (st : State)
  : option Pressed :=
  match currentField p with
  | provider_field =>
      value ← selectedValue providers (highlightedIndex p);
      chosen ← provider_of_name value;
      let f := providerEffect (setProvider chosen (form p)) in
      Some {| panel :=
                {| form := f; currentField := model_field;
                   highlightedIndex :=
                     select_index model_field (f_model (form p)) f |};
              state := st; saved := 0 |}
  | model_field =>
      value ← selectedValue (availableModels (f_provider (form p)))
                (highlightedIndex p);
      Some {| panel :=
                {| form := setModel value (form p);
                   currentField := apiKey_field; highlightedIndex := 0%Z |};
              state := st; saved := 0 |}
  | saveFormat_field =>
      st1 ← saveSettings env (form p) st;
      st2 ← saveSettings env (form p) st1;
      Some {| panel := p; state := st2; saved := 2 |}
  | fld =>
      Some {| panel :=
                {| form := form p; currentField := nextField fld;
                   highlightedIndex := 0%Z |};
              state := st; saved := 0 |}
  end.

(** The arrows: the select in focus moves its highlight, the format field
    toggles, a text field ignores them. *)
Definition onArrow (up : bool) (p : Panel) : Panel :=
  let move items :=
    if up then upArrow items (highlightedIndex p)
    else downArrow items (highlightedIndex p) in
  match currentField p with
  | provider_field =>
      {| form := form p; currentField := provider_field;
         highlightedIndex := move providers |}
  | model_field =>
      {| form := form p; currentField := model_field;
         highlightedIndex := move (availableModels (f_provider (form p))) |}
  | saveFormat_field =>
      {| form := setSaveFormat (toggleFormat (f_saveFormat (form p))) (form p);
         currentField := saveFormat_field;
         highlightedIndex := highlightedIndex p |}
  | _ => p
  end.

(** [onChange] of the text input in focus: the field takes the new text. *)
Definition onChangeText (text : jsstring) (p : Panel) : Panel :=
  let f := form p in
  let with_form g :=
    {| form := g; currentField := currentField p;
       highlightedIndex := highlightedIndex p |} in
  match currentField p with
  | apiKey_field =>
      with_form
        {| f_provider := f_provider f; f_model := f_model f; f_apiKey := text;
           f_temperature := f_temperature f; f_maxTokens := f_maxTokens f;
           f_systemPrompt := f_systemPrompt f; f_saveFormat := f_saveFormat f |}
  | temperature_field =>
      with_form
        {| f_provider := f_provider f; f_model := f_model f;
           f_apiKey := f_apiKey f; f_temperature := text;
           f_maxTokens := f_maxTokens f; f_systemPrompt := f_systemPrompt f;
           f_saveFormat := f_saveFormat f |}
  | maxTokens_field =>
      with_form
        {| f_provider := f_provider f; f_model := f_model f;
           f_apiKey := f_apiKey f; f_temperature := f_temperature f;
           f_maxTokens := text; f_systemPrompt := f_systemPrompt f;
           f_saveFormat := f_saveFormat f |}
  | systemPrompt_field =>
      with_form
        {| f_provider := f_provider f; f_model := f_model f;
           f_apiKey := f_apiKey f; f_temperature := f_temperature f;
           f_maxTokens := f_maxTokens f; f_systemPrompt := text;
           f_saveFormat := f_saveFormat f |}
  | _ => p
  end.

End Panel.
Import Panel.

(** ** [App] of [src/index.tsx]: the two views *)

Module App.

(** One of the two components is mounted; its state lives and dies with
    it. *)
Inductive Screen :=
  | ChatView (c : ChatState)
  | SettingsView (p : Panel).

(** The program and the disk it writes to. *)
Record World := { screen : Screen; service : State; disk : FS }.

(** The first render, on the session [st]. *)
Definition boot (st : State) (fs : FS) : World :=
  {| screen := ChatView initialChat; service := st; disk := fs |}.

(** What the user does, with what the outside answers to it: the provider
    to a message sent, the clock and the file system to a save. The arrows
    are the up and the down arrow. What a key does inside a text input
    ([ink-text-input], not of this repository) reaches the views through
    [onChange] only, as an event of its own. *)
Inductive Event :=
  | KeyTab
  | KeyReturn (invoke : Binding -> list BaseMessage -> outcome jsstring)
  | KeyArrow (up : bool)
  | TextChanged (text : jsstring)
  | KeyCtrlS (clk : Clock) (flt : Faults).

Section Handlers.

Variable env : ProcessEnv.
Variable path_join : jsstring -> jsstring -> jsstring.
(** [Number.prototype.toString]. *)
Variable toString : number -> jsstring.

(** Mounting [SettingsInterface] on the current config. *)
Definition openSettings (st : State) : option Panel :=
  c ← read_config (heap st) (getConfig st);
  openPanel toString c.

(** One event, seen by every input handler that is mounted; [None] when a
    render or a handler throws. *)
Definition handle (e : Event) (w : World) : option World :=
  match screen w, e with
  | ChatView c, KeyTab =>
      p ← openSettings (service w);
      Some {| screen := SettingsView p; service := service w; disk := disk w |}
  | ChatView c, KeyReturn invoke =>
      r ← submitInput invoke c (service w);
      Some {| screen := ChatView (chat r); service := session r;
              disk := disk w |}
  | ChatView c, TextChanged text =>
      Some {| screen :=
                ChatView {| messages := messages c; isLoading := isLoading c;
                            saveStatus := saveStatus c; input := text |};
              service := service w; disk := disk w |}
  | ChatView c, KeyCtrlS clk flt =>
      r ← saveShortcut env path_join clk flt c (service w) (disk w);
      Some {| screen := ChatView (fst r); service := service w;
              disk := snd r |}
  | ChatView c, KeyArrow _ => Some w
  | SettingsView p, KeyTab =>
      r ← onTab env p (service w);
      Some {| screen := ChatView initialChat; service := state r;
              disk := disk w |}
  | SettingsView p, KeyReturn _ =>
      r ← onReturn env p (service w);
      Some {| screen :=
                match saved r with
                | O => SettingsView (panel r)
                | _ => ChatView initialChat
                end;
              service := state r; disk := disk w |}
  | SettingsView p, KeyArrow up =>
      Some {| screen := SettingsView (onArrow up p); service := service w;
              disk := disk w |}
  | SettingsView p, TextChanged text =>
      Some {| screen := SettingsView (onChangeText text p);
              service := service w; disk := disk w |}
  | SettingsView p, KeyCtrlS _ _ => Some w
  end.

Fixpoint handle_all (es : list Event) (w : World) : option World :=
  match es with
  | [] => Some w
  | e :: rest => w' ← handle e w; handle_all rest w'
  end.

End Handlers.

End App.
Import App.

(** ** Histories of a session *)

Module History.

(** What can happen to a session after [start]. *)
Inductive Event :=
  | Update (n : PartialConfig)
  | SaveForm (f : Form)
  | Send (messages : list Message).



(** The session's client is the one its config asks for. *)
Definition in_sync (env : ProcessEnv) (st : State) : Prop :=
  exists c,
    read_config (heap st) (getConfig st) = Some c
    /\ read_model (heap st) (this_model (this st)) = Some (binding env c).

(** A number as [JSON.parse] can give it: no [NaN], no infinity, no [-0]. *)
Definition json_number (v : numval) : Prop :=
  match v with
  | Null => True
  | Num (S754_zero s) => s = false
  | Num (S754_finite _ _ _) => True
  | Num _ => False
  end.

End History.
Import History.

(** ** What the two views keep true *)

Module Reach.

(** A number the form can leave in the config: a finite one other than
    zero, or [null]. *)
Definition set_or_null (v : numval) : Prop :=
  match v with
  | Null | Num (S754_finite _ _ _) => True
  | Num _ => False
  end.

Definition tidy (c : LLMConfig) : Prop :=
  includes (availableModels (provider c)) (model c) = true
  /\ (exists s, saveFormat c = Some s /\ recognised s)
  /\ set_or_null (temperature c) /\ set_or_null (maxTokens c)
  /\ apiKey c <> Some []
  /\ (exists prompt, systemPrompt c = Some prompt /\ prompt <> []).

Definition chat_ok (c : ChatState) : Prop :=
  Forall (fun msg => role msg <> system) (messages c) /\ isLoading c = false.

Definition panel_ok (p : Panel) : Prop :=
  includes (availableModels (f_provider (form p))) (f_model (form p)) = true
  /\ recognised (f_saveFormat (form p))
  /\ match currentField p with
     | provider_field => in_range providers (highlightedIndex p)
     | model_field =>
         in_range (availableModels (f_provider (form p))) (highlightedIndex p)
     | _ => True
     end.

Definition sound (env : ProcessEnv) (w : World) : Prop :=
  in_sync env (service w)
  /\ (exists c,
        read_config (heap (service w)) (getConfig (service w)) = Some c
        /\ tidy c)
  /\ match screen w with
     | ChatView c => chat_ok c
     | SettingsView p => panel_ok p
     end.


End Reach.
Import Reach.

(** ** More concrete inputs *)

Module Examples2.

Definition show0 (_ : number) : jsstring := js "1".

(** A conversation of the chat view. *)
Definition chat_hi : ChatState :=
  {| messages := hi_hello; isLoading := false; saveStatus := None;
     input := js "  how are you? " |}.

Definition failing (_ : Binding) (_ : list BaseMessage) : outcome jsstring :=
  Throws (js "401 Unauthorized").

Definition panel0 (fld : Field) (i : Z) : Panel :=
  {| form := form0 (js "0.7") (js "1000"); currentField := fld;
     highlightedIndex := i |}.

End Examples2.
Import Examples2.

(** * Properties *)

(** ** The built-ins on small inputs *)

Example parseFloat_0_7 : parseFloat (js "0.7") = num_0_7.
Proof. reflexivity. Qed.

Example parseFloat_prefix :
  parseFloat (js "  -12.5e-3px") = of_decimal true 125 (-4).
Proof. reflexivity. Qed.

Example parseFloat_abc : parseFloat (js "abc") = NaN.
Proof. reflexivity. Qed.

Example parseFloat_dot : parseFloat (js ".") = NaN.
Proof. reflexivity. Qed.

Example parseFloat_Infinity : parseFloat (js "-Infinity") = S754_infinity true.
Proof. reflexivity. Qed.

Example parseFloat_underflow : parseFloat (js "1e-400") = S754_zero false.
Proof. vm_compute. reflexivity. Qed.

Example parseFloat_overflow : parseFloat (js "1e309") = S754_infinity false.
Proof. vm_compute. reflexivity. Qed.

Example parseInt_1000 : parseInt (js "1000") = num_1000.
Proof. reflexivity. Qed.

Example parseInt_hex : parseInt (js "0x1f") = of_N 31.
Proof. reflexivity. Qed.

Example parseInt_bare_0x : parseInt (js "0x") = NaN.
Proof. reflexivity. Qed.

Example parseInt_prefix : parseInt (js "12.9px") = of_N 12.
Proof. reflexivity. Qed.

Example or_num_zero : or_num (parseFloat (js "0")) num_0_7 = num_0_7.
Proof. reflexivity. Qed.

Example slug_example : slug (js "My Chat #1") = js "my-chat--1".
Proof. reflexivity. Qed.

Example name_stamp_example :
  name_stamp (js "2025-01-02T03:04:05.678Z") = js "2025-01-02T03-04-05-678Z".
Proof. reflexivity. Qed.

Example stringify_example :
  JSON_stringify (VArray [VString (js "a" ++ [34; 10]); VObject []])
  = js "[" ++ nl ++ js "  " ++ [34] ++ js "a\" ++ [34] ++ js "\n" ++ [34]
    ++ js "," ++ nl ++ js "  {}" ++ nl ++ js "]".
Proof. reflexivity. Qed.

Example parse_example :
  JSON_parse (js " [1.5, true, null, {} ] ")
  = Some (JArray [JNumber (of_decimal false 15 (-1)); JBool true; JNull;
                  JObject []]).
Proof. reflexivity. Qed.

Example parse_rejects_leading_zero : JSON_parse (js "01") = None.
Proof. reflexivity. Qed.

Example parse_rejects_trailing_comma : JSON_parse (js "[1,]") = None.
Proof. reflexivity. Qed.

(** ** The store *)

Section StoreFacts.

Implicit Types (h : store) (o : object) (l : loc).

Lemma alloc_fresh o h : h !! (alloc o h).1 = None.
Proof.
  unfold alloc; simpl. apply not_elem_of_dom, is_fresh.
Qed.

Lemma alloc_lookup o h : (alloc o h).2 !! (alloc o h).1 = Some o.
Proof. unfold alloc; simpl. apply lookup_insert_eq. Qed.

Lemma alloc_old o h l : is_Some (h !! l) -> (alloc o h).2 !! l = h !! l.
Proof.
  intros Hl. unfold alloc; simpl. apply lookup_insert_ne.
  intros <-. pose proof (alloc_fresh o h) as Hf. unfold alloc in Hf; simpl in Hf.
  rewrite Hf in Hl. by destruct Hl.
Qed.

Lemma fresh_insert_ne h l o : fresh (dom (<[l := o]> h)) <> l.
Proof.
  intros Heq. pose proof (is_fresh (dom (<[l := o]> h))) as Hf.
  rewrite Heq in Hf. apply Hf. rewrite dom_insert_L. set_solver.
Qed.

Lemma fresh_insert_absent h l o : h !! fresh (dom (<[l := o]> h)) = None.
Proof.
  pose proof (is_fresh (dom (<[l := o]> h))) as Hf.
  apply not_elem_of_dom. intros Hin. apply Hf.
  apply elem_of_dom. apply elem_of_dom in Hin.
  destruct (decide (l = fresh (dom (<[l := o]> h)))) as [Heq|Hne].
  - exfalso. by apply (fresh_insert_ne h l o).
  - by rewrite lookup_insert_ne.
Qed.

Lemma read_config_assign h l upd :
  read_config (assign l upd h) l = upd <$> read_config h l.
Proof.
  unfold read_config, assign. rewrite lookup_alter_eq.
  destruct (h !! l) as [[c|b|m]|]; reflexivity.
Qed.

Lemma read_config_assign_ne h l l' upd :
  l <> l' -> read_config (assign l upd h) l' = read_config h l'.
Proof.
  intros Hne. unfold read_config, assign. by rewrite lookup_alter_ne.
Qed.

Lemma assign_absent h l upd : h !! l = None -> assign l upd h = h.
Proof.
  intros Hl. unfold assign. apply map_eq. intros i.
  destruct (decide (l = i)) as [<-|Hne].
  - by rewrite lookup_alter_eq, Hl.
  - by rewrite lookup_alter_ne.
Qed.

End StoreFacts.

(** ** The session at start *)

Lemma start_ok (env : ProcessEnv) :
  exists st,
    start env = Some st
    /\ read_config (heap st) (getConfig st) = Some (defaultConfig env)
    /\ read_model (heap st) (this_model (this st))
       = Some (binding env (defaultConfig env)).
Proof.
  unfold start, constructor, alloc, read_config at 1. simpl.
  rewrite lookup_insert_eq. simpl. eexists. split; [reflexivity|].
  unfold getConfig, read_config, read_model. simpl.
  rewrite lookup_insert_ne by apply fresh_insert_ne.
  by rewrite !lookup_insert_eq.
Qed.

Example start_env0 : start env0 = Some st0.
Proof. reflexivity. Qed.

(** ** [updateConfig] *)

Section UpdateConfigFacts.

Variable env : ProcessEnv.

(** What [updateConfig] does to the session: two new objects, the cloned
    merge and a client built from it. *)
Lemma updateConfig_eq n st cur :
  read_config (heap st) (getConfig st) = Some cur ->
  updateConfig env n st =
    Some {| heap :=
              (alloc (ChatModel (binding env (clone_config (merge cur n))))
                 (alloc (ConfigObject (clone_config (merge cur n)))
                    (heap st)).2).2;
            this :=
              {| this_model :=
                   (alloc (ChatModel (binding env (clone_config (merge cur n))))
                      (alloc (ConfigObject (clone_config (merge cur n)))
                         (heap st)).2).1;
                 this_config :=
                   (alloc (ConfigObject (clone_config (merge cur n)))
                      (heap st)).1 |} |}.
Proof.
  intros Hcur. unfold updateConfig, getConfig in *. rewrite Hcur. reflexivity.
Qed.

Lemma updateConfig_config n st cur st' :
  read_config (heap st) (getConfig st) = Some cur ->
  updateConfig env n st = Some st' ->
  read_config (heap st') (getConfig st') = Some (clone_config (merge cur n)).
Proof.
  intros Hcur Hup. rewrite (updateConfig_eq _ _ _ Hcur) in Hup.
  injection Hup as <-. unfold getConfig, read_config, alloc; simpl.
  rewrite lookup_insert_ne by apply fresh_insert_ne.
  by rewrite lookup_insert_eq.
Qed.

Lemma updateConfig_model n st cur st' :
  read_config (heap st) (getConfig st) = Some cur ->
  updateConfig env n st = Some st' ->
  read_model (heap st') (this_model (this st'))
    = Some (binding env (clone_config (merge cur n))).
Proof.
  intros Hcur Hup. rewrite (updateConfig_eq _ _ _ Hcur) in Hup.
  injection Hup as <-. unfold read_model, alloc; simpl.
  by rewrite lookup_insert_eq.
Qed.

(** Both objects of the new session are new: no reference taken before
    the call points to them. *)
Lemma updateConfig_fresh n st cur st' :
  read_config (heap st) (getConfig st) = Some cur ->
  updateConfig env n st = Some st' ->
  heap st !! getConfig st' = None /\ heap st !! this_model (this st') = None.
Proof.
  intros Hcur Hup. rewrite (updateConfig_eq _ _ _ Hcur) in Hup.
  injection Hup as <-. unfold getConfig, alloc; simpl. split.
  - apply not_elem_of_dom, is_fresh.
  - apply fresh_insert_absent.
Qed.

(** Objects that were there before are left as they were. *)
Lemma updateConfig_frame n st st' l :
  updateConfig env n st = Some st' ->
  is_Some (heap st !! l) -> heap st' !! l = heap st !! l.
Proof.
  intros Hup Hl.
  destruct (read_config (heap st) (getConfig st)) as [cur|] eqn:Hcur.
  - destruct (updateConfig_fresh _ _ _ _ Hcur Hup) as [Hc Hm].
    rewrite (updateConfig_eq _ _ _ Hcur) in Hup.
    injection Hup as <-. unfold getConfig, alloc in *; simpl in *.
    rewrite !lookup_insert_ne; [done| |].
    + intros <-. rewrite Hc in Hl. by destruct Hl.
    + intros <-. rewrite Hm in Hl. by destruct Hl.
  - unfold updateConfig, getConfig in *. rewrite Hcur in Hup. discriminate.
Qed.

End UpdateConfigFacts.

(** ** The settings form *)

Section SettingsFacts.

Variable env : ProcessEnv.

Lemma availableModels_first p :
  exists first rest, availableModels p = first :: rest.
Proof. destruct p; eexists; eexists; reflexivity. Qed.

(** After the provider effect the form's model is one of the provider's
    models. *)
Lemma providerEffect_listed f :
  includes (availableModels (f_provider (providerEffect f)))
           (f_model (providerEffect f)) = true.
Proof.
  unfold providerEffect.
  destruct (includes (availableModels (f_provider f)) (f_model f)) eqn:Hin;
    simpl; [exact Hin|].
  destruct (f_provider f) eqn:Hp; simpl; rewrite Hp; reflexivity.
Qed.



(** The config a save of the form leaves in the session. *)
Lemma saveSettings_config f st cur :
  read_config (heap st) (getConfig st) = Some cur ->
  exists st',
    saveSettings env f st = Some st'
    /\ read_config (heap st') (getConfig st')
       = Some (clone_config
                 (merge cur (as_partial (clone_config (newConfig f cur))))).
Proof.
  intros Hcur. unfold saveSettings. rewrite Hcur. simpl.
  rewrite (updateConfig_eq env _ _ _ Hcur). eexists. split; [reflexivity|].
  eapply updateConfig_config; [exact Hcur|].
  apply updateConfig_eq, Hcur.
Qed.

End SettingsFacts.

(** ** Provider switch and the model registry *)




(** ** Rebuilding the provider client *)




(** ** [getConfig] and aliasing *)

(** C4, as the code has it: [getConfig()] returns the live config object
    itself, so a change made through the returned value is what later
    [getConfig()] calls read; after an [updateConfig] the live config is a
    newly created object, so changing an object obtained before that
    [updateConfig] does not change what later [getConfig()] calls read. *)
Theorem C4_getConfig_is_live_until_update
    (env : ProcessEnv) (st : State) (cur : LLMConfig)
    (upd : LLMConfig -> LLMConfig) :
  read_config (heap st) (getConfig st) = Some cur ->
  read_config (heap (mutate (getConfig st) upd st))
              (getConfig (mutate (getConfig st) upd st)) = Some (upd cur)
  /\ forall n st' l,
       updateConfig env n st = Some st' ->
       is_Some (heap st !! l) ->
       read_config (heap (mutate l upd st')) (getConfig (mutate l upd st'))
       = read_config (heap st') (getConfig st').
Proof.
  intros Hcur. split.
  - unfold mutate, getConfig in *; simpl.
    by rewrite read_config_assign, Hcur.
  - intros n st' l Hup [o Ho].
    destruct (updateConfig_fresh env n st cur st' Hcur Hup) as [Hnew _].
    unfold mutate, getConfig in *; simpl.
    apply read_config_assign_ne. intros ->. congruence.
Qed.

(** On the default session: writing a temperature through the value
    [getConfig()] returned changes what the next [getConfig()] reads. *)
Lemma C4_write_through_getConfig :
  read_config (heap st0) (getConfig st0) = Some (defaultConfig env0)
  /\ read_config
       (heap (mutate (getConfig st0) (set_temperature (Num num_1000)) st0))
       (getConfig (mutate (getConfig st0) (set_temperature (Num num_1000)) st0))
     = Some (set_temperature (Num num_1000) (defaultConfig env0))
  /\ read_config
       (heap (mutate (getConfig st0) (set_temperature (Num num_1000)) st0))
       (getConfig (mutate (getConfig st0) (set_temperature (Num num_1000)) st0))
     <> read_config (heap st0) (getConfig st0).
Proof.
  split; [reflexivity|]. split; [reflexivity|].
  vm_compute. congruence.
Qed.

Lemma C4_witness :
  read_config (heap st0) (getConfig st0) = Some (defaultConfig env0)
  /\ (read_config
        (heap (mutate (getConfig st0) (set_temperature Null) st0))
        (getConfig (mutate (getConfig st0) (set_temperature Null) st0))
      = Some (set_temperature Null (defaultConfig env0))
      /\ forall n st' l,
           updateConfig env0 n st0 = Some st' ->
           is_Some (heap st0 !! l) ->
           read_config (heap (mutate l (set_temperature Null) st'))
                       (getConfig (mutate l (set_temperature Null) st'))
           = read_config (heap st') (getConfig st')).
Proof.
  split; [reflexivity|].
  apply (C4_getConfig_is_live_until_update env0 st0 (defaultConfig env0)
           (set_temperature Null)).
  reflexivity.
Defined.

(** ** [sendMessage] *)

Section SendMessageFacts.

Variable invoke : Binding -> list BaseMessage -> outcome jsstring.



End SendMessageFacts.



(** ** [saveChat] *)

Section SaveChatFacts.

Variable env : ProcessEnv.
Variable path_join : jsstring -> jsstring -> jsstring.

(** [saveChat] when no call of the file system throws. *)
Lemma saveChat_with_ok c clk flt messages title fs :
  (present fs (saveDir env c) = true \/ mkdir_error flt = None) ->
  write_error flt = None ->
  saveChat_with env path_join c clk flt messages title fs
  = (Returns (filePath env path_join c clk title),
     {| dirs := dirs (with_dir fs (saveDir env c));
        files := <[filePath env path_join c clk title :=
                     fileContent c clk messages]>
                   (files (with_dir fs (saveDir env c))) |}).
Proof.
  intros Hdir Hwrite.
  unfold saveChat_with, try_catch, mbind, IO_bind, bind, existsSync,
    mkdirSync, writeFileSync, with_dir, ret.
  destruct (present fs (saveDir env c)) eqn:Hp; simpl.
  - by rewrite Hwrite.
  - destruct Hdir as [?|Hmk]; [discriminate|].
    rewrite Hmk. simpl. by rewrite Hwrite.
Qed.

(** [mkdirSync] throws: nothing is written. *)
Lemma saveChat_with_mkdir_fails c clk flt messages title fs e :
  present fs (saveDir env c) = false ->
  mkdir_error flt = Some e ->
  saveChat_with env path_join c clk flt messages title fs
  = (Throws (js "Failed to save chat: " ++ e), fs).
Proof.
  intros Hp Hmk.
  unfold saveChat_with, try_catch, mbind, IO_bind, bind, existsSync,
    mkdirSync, throw.
  rewrite Hp; simpl. by rewrite Hmk.
Qed.

(** [writeFileSync] throws. *)
Lemma saveChat_with_write_fails c clk flt messages title fs e :
  (present fs (saveDir env c) = true \/ mkdir_error flt = None) ->
  write_error flt = Some e ->
  fst (saveChat_with env path_join c clk flt messages title fs)
  = Throws (js "Failed to save chat: " ++ e).
Proof.
  intros Hdir Hwrite.
  unfold saveChat_with, try_catch, mbind, IO_bind, bind, existsSync,
    mkdirSync, writeFileSync, throw, ret.
  destruct (present fs (saveDir env c)) eqn:Hp; simpl.
  - by rewrite Hwrite.
  - destruct Hdir as [?|Hmk]; [discriminate|].
    rewrite Hmk. simpl. by rewrite Hwrite.
Qed.

Lemma saveChat_eq st cfg clk flt messages title fs :
  read_config (heap st) (getConfig st) = Some cfg ->
  saveChat env path_join st clk flt messages title fs
  = Some (saveChat_with env path_join cfg clk flt messages title fs).
Proof.
  unfold saveChat, getConfig. by intros ->.
Qed.

(** What [toLowerCase] is called on holds letters, digits and [-] only. *)
Lemma slug_receiver_ascii title :
  Forall (fun c => is_alnum c = true \/ c = 45)
         (replace_class (fun c => negb (is_alnum c)) 45 title).
Proof.
  unfold replace_class. apply Forall_map, Forall_forall. intros c _.
  simpl. destruct (is_alnum c) eqn:Hc; simpl; auto.
Qed.

(** The slug, unit by unit. *)
Lemma slug_map title :
  slug title = map (fun c => if is_alnum c then lower_unit c else 45) title.
Proof.
  unfold slug, toLowerCase, replace_class. rewrite map_map.
  apply map_ext. intros c. by destruct (is_alnum c).
Qed.

Lemma fold_sections acc messages :
  fold_left (fun a msg => a ++ markdownSection msg) messages acc
  = acc ++ concat (map markdownSection messages).
Proof.
  revert acc. induction messages as [|msg ms IH]; intros acc; simpl.
  - by rewrite app_nil_r.
  - by rewrite IH, <- app_assoc.
Qed.

End SaveChatFacts.

(** ** The name and the content of a markdown transcript *)

(** C2, as the code has it: a conversation saved with a non-empty title
    under markdown format goes to the file named by the ISO timestamp with
    [:] and [.] replaced by [-], then [-], then the slug of the title (every
    code unit outside [A-Za-z0-9] replaced by [-], letters lower-cased),
    then [.md]; the part [-chat] appears only in the name of a save without
    a title. The content is the two header lines followed by one section per
    message in order; for [{user, hi}, {assistant, hello}] that is
    [## User], [hi], [## Assistant], [hello]. *)
Theorem C2_markdown_name_and_content
    (env : ProcessEnv) (path_join : jsstring -> jsstring -> jsstring)
    (st : State) (cfg : LLMConfig) (clk : Clock) (messages : list Message)
    (title : jsstring) (fs : FS) :
  read_config (heap st) (getConfig st) = Some cfg ->
  saveFormat cfg = Some (js "markdown") ->
  title <> [] ->
  (exists fs',
      saveChat env path_join st clk no_faults messages (Some title) fs
      = Some (Returns
                (path_join (saveDir env cfg)
                   (name_stamp (iso_for_name clk) ++ js "-"
                    ++ map (fun c => if is_alnum c then lower_unit c else 45)
                         title
                    ++ js ".md")), fs')
      /\ files fs' !! path_join (saveDir env cfg)
                        (name_stamp (iso_for_name clk) ++ js "-"
                         ++ map (fun c => if is_alnum c then lower_unit c
                                          else 45) title
                         ++ js ".md")
         = Some (js "# Chat - " ++ locale_string clk ++ nl ++ nl
                 ++ js "**Model**: " ++ model cfg ++ js " ("
                 ++ provider_name (provider cfg) ++ js ")" ++ nl ++ nl
                 ++ js "---" ++ nl ++ nl
                 ++ concat (map markdownSection messages)))
  /\ (exists fs',
        saveChat env path_join st clk no_faults messages None fs
        = Some (Returns
                  (path_join (saveDir env cfg)
                     (name_stamp (iso_for_name clk) ++ js "-chat.md")), fs'))
  /\ slug (js "Demo") = js "demo"
  /\ concat (map markdownSection hi_hello)
     = js "## User" ++ nl ++ nl ++ js "hi" ++ nl ++ nl ++ js "---" ++ nl ++ nl
       ++ js "## Assistant" ++ nl ++ nl ++ js "hello" ++ nl ++ nl
       ++ js "---" ++ nl ++ nl.
Proof.
  intros Hcfg Hfmt Htitle.
  assert (Hmd : formatToUse cfg = markdown).
  { unfold formatToUse. by rewrite bool_decide_eq_true_2. }
  split; [|split; [|split; reflexivity]].
  - rewrite (saveChat_eq env path_join _ _ _ _ _ _ _ Hcfg).
    rewrite saveChat_with_ok by (auto || reflexivity).
    eexists. unfold filePath, filename, fileContent. rewrite Hmd.
    destruct title as [|a r]; [congruence|].
    cbn [truthy_str default from_option id fileExtension].
    rewrite slug_map. change (js "." ++ js "md") with (js ".md").
    split; [reflexivity|].
    cbn [files]. rewrite lookup_insert_eq.
    unfold markdownContent. rewrite fold_sections.
    by rewrite <- !app_assoc.
  - rewrite (saveChat_eq env path_join _ _ _ _ _ _ _ Hcfg).
    rewrite saveChat_with_ok by (auto || reflexivity).
    eexists. unfold filePath, filename. rewrite Hmd. reflexivity.
Qed.

(** The markdown scenario with title [Demo]: the name ends in [-demo.md],
    not in [-demo-chat.md]. *)
Lemma C2_titled_name_has_no_chat_part :
  fst <$> saveChat env0 join2 st_md clk0 no_faults hi_hello (Some (js "Demo")) fs0
  = Some (Returns (js "./chats/2025-01-02T03-04-05-678Z-demo.md"))
  /\ filename cfg_md clk0 (Some (js "Demo"))
     = js "2025-01-02T03-04-05-678Z-demo.md"
  /\ filename cfg_md clk0 (Some (js "Demo"))
     <> name_stamp (iso_for_name clk0) ++ js "-" ++ slug (js "Demo")
        ++ js "-chat.md".
Proof.
  split; [vm_compute; reflexivity|]. split; [reflexivity|].
  vm_compute. congruence.
Qed.

Lemma C2_witness :
  read_config (heap st_md) (getConfig st_md) = Some cfg_md
  /\ saveFormat cfg_md = Some (js "markdown")
  /\ js "Demo" <> []
  /\ ((exists fs',
         saveChat env0 join2 st_md clk0 no_faults hi_hello (Some (js "Demo")) fs0
         = Some (Returns
                   (join2 (saveDir env0 cfg_md)
                      (name_stamp (iso_for_name clk0) ++ js "-"
                       ++ map (fun c => if is_alnum c then lower_unit c else 45)
                            (js "Demo")
                       ++ js ".md")), fs')
         /\ files fs' !! join2 (saveDir env0 cfg_md)
                           (name_stamp (iso_for_name clk0) ++ js "-"
                            ++ map (fun c => if is_alnum c then lower_unit c
                                             else 45) (js "Demo")
                            ++ js ".md")
            = Some (js "# Chat - " ++ locale_string clk0 ++ nl ++ nl
                    ++ js "**Model**: " ++ model cfg_md ++ js " ("
                    ++ provider_name (provider cfg_md) ++ js ")" ++ nl ++ nl
                    ++ js "---" ++ nl ++ nl
                    ++ concat (map markdownSection hi_hello)))
      /\ (exists fs',
            saveChat env0 join2 st_md clk0 no_faults hi_hello None fs0
            = Some (Returns
                      (join2 (saveDir env0 cfg_md)
                         (name_stamp (iso_for_name clk0) ++ js "-chat.md")),
                    fs'))
      /\ slug (js "Demo") = js "demo"
      /\ concat (map markdownSection hi_hello)
         = js "## User" ++ nl ++ nl ++ js "hi" ++ nl ++ nl ++ js "---"
           ++ nl ++ nl
           ++ js "## Assistant" ++ nl ++ nl ++ js "hello" ++ nl ++ nl
           ++ js "---" ++ nl ++ nl).
Proof.
  split; [reflexivity|]. split; [reflexivity|]. split; [discriminate|].
  apply (C2_markdown_name_and_content env0 join2 st_md cfg_md clk0 hi_hello
           (js "Demo") fs0); [reflexivity | reflexivity | discriminate].
Defined.

(** ** Failures of the file system *)

(** C6, as the code has it: when a call of the file system throws during a
    save, [saveChat] throws one [Error] whose message is
    [Failed to save chat: ] followed by the message of the underlying error
    (the path is in it only if the underlying message has it); when it is
    the creation of the directory that throws, no file is written. *)
Theorem C6_failure_carries_underlying_message
    (env : ProcessEnv) (path_join : jsstring -> jsstring -> jsstring)
    (st : State) (cfg : LLMConfig) (clk : Clock) (flt : Faults)
    (messages : list Message) (title : option jsstring) (fs : FS)
    (e : jsstring) :
  read_config (heap st) (getConfig st) = Some cfg ->
  fs_failure flt fs (saveDir env cfg) e ->
  exists fs',
    saveChat env path_join st clk flt messages title fs
    = Some (Throws (js "Failed to save chat: " ++ e), fs')
    /\ (present fs (saveDir env cfg) = false -> mkdir_error flt = Some e ->
        fs' = fs).
Proof.
  intros Hcfg Hfail.
  rewrite (saveChat_eq env path_join _ _ _ _ _ _ _ Hcfg).
  destruct Hfail as [[Hp Hmk]|[Hdir Hwr]].
  - exists fs. split; [|reflexivity].
    by rewrite (saveChat_with_mkdir_fails env path_join _ _ _ _ _ _ e Hp Hmk).
  - pose proof (saveChat_with_write_fails env path_join cfg clk flt messages
                  title fs e Hdir Hwr) as Hres.
    destruct (saveChat_with env path_join cfg clk flt messages title fs)
      as [r fs'] eqn:Hrun.
    simpl in Hres. subst r. exists fs'. split; [reflexivity|].
    intros Hp Hmk. destruct Hdir as [Hp'|Hmk']; congruence.
Qed.

(** A full disk on the default session: the write throws Node's
    [ENOSPC: no space left on device, write]; the message [saveChat] throws
    does not have the path of the file in it. *)
Lemma C6_message_without_the_path :
  fst <$> saveChat env0 join2 st0 clk0 disk_full hi_hello None fs0
  = Some (Throws
            (js "Failed to save chat: ENOSPC: no space left on device, write"))
  /\ filePath env0 join2 (defaultConfig env0) clk0 None
     = js "./chats/2025-01-02T03-04-05-678Z-chat.json"
  /\ contains (filePath env0 join2 (defaultConfig env0) clk0 None)
       (js "Failed to save chat: ENOSPC: no space left on device, write")
     = false.
Proof.
  split; [vm_compute; reflexivity|]. split; reflexivity.
Qed.

Lemma C6_witness :
  read_config (heap st0) (getConfig st0) = Some (defaultConfig env0)
  /\ fs_failure disk_full fs0 (saveDir env0 (defaultConfig env0))
       (js "ENOSPC: no space left on device, write")
  /\ exists fs',
       saveChat env0 join2 st0 clk0 disk_full hi_hello None fs0
       = Some (Throws (js "Failed to save chat: "
                       ++ js "ENOSPC: no space left on device, write"), fs')
       /\ (present fs0 (saveDir env0 (defaultConfig env0)) = false ->
           mkdir_error disk_full
           = Some (js "ENOSPC: no space left on device, write") ->
           fs' = fs0).
Proof.
  split; [reflexivity|].
  split; [right; split; [right; reflexivity | reflexivity]|].
  apply (C6_failure_carries_underlying_message env0 join2 st0
           (defaultConfig env0) clk0 disk_full hi_hello None fs0
           (js "ENOSPC: no space left on device, write")).
  - reflexivity.
  - right; split; [right; reflexivity | reflexivity].
Defined.

(** ** Numeric fields of the settings form *)

Section NumericFacts.




(** [x || d] is never a zero when [d] is not. *)
Lemma or_num_not_zero x d : is_zero d = false -> is_zero (or_num x d) = false.
Proof.
  intros Hd. unfold or_num. destruct x; simpl; auto.
Qed.

Lemma clone_num_not_zero x :
  is_zero x = false -> truthy x = true ->
  forall z, clone_num (clone_num (Num x)) <> Num (S754_zero z).
Proof.
  destruct x; simpl; intros; congruence.
Qed.

Lemma or_num_truthy x d : truthy d = true -> truthy (or_num x d) = true.
Proof. intros Hd. unfold or_num. by destruct (truthy x) eqn:Hx. Qed.

(** The numeric fields that a save of the form leaves in the session. *)
Lemma saveSettings_numbers env f st cur :
  read_config (heap st) (getConfig st) = Some cur ->
  exists st' c,
    saveSettings env f st = Some st'
    /\ read_config (heap st') (getConfig st') = Some c
    /\ temperature c
       = clone_num (clone_num (Num (or_num (parseFloat (f_temperature f))
                                      num_0_7)))
    /\ maxTokens c
       = clone_num (clone_num (Num (or_num (parseInt (f_maxTokens f))
                                      num_1000))).
Proof.
  intros Hcur.
  destruct (saveSettings_config env f st cur Hcur) as (st' & Hsave & Hread).
  eexists st', _. split; [exact Hsave|]. split; [exact Hread|].
  split; reflexivity.
Qed.

End NumericFacts.



(** C10: the fallback also takes the valid input [0]: with [0] in the
    temperature field the saved config has temperature 0.7, with [0] in the
    maxTokens field it has maxTokens 1000, because [parseFloat("0")] and
    [parseInt("0")] are falsy; whatever the fields hold, the saved
    temperature and maxTokens are never zero. *)
Theorem C10_zero_cannot_be_configured
    (env : ProcessEnv) (f : Form) (st : State) (cur : LLMConfig) :
  read_config (heap st) (getConfig st) = Some cur ->
  exists st' c,
    saveSettings env f st = Some st'
    /\ read_config (heap st') (getConfig st') = Some c
    /\ (f_temperature f = js "0" -> temperature c = Num num_0_7)
    /\ (f_maxTokens f = js "0" -> maxTokens c = Num num_1000)
    /\ (forall z, temperature c <> Num (S754_zero z))
    /\ (forall z, maxTokens c <> Num (S754_zero z))
    /\ truthy (parseFloat (js "0")) = false
    /\ truthy (parseInt (js "0")) = false.
Proof.
  intros Hcur.
  destruct (saveSettings_numbers env f st cur Hcur)
    as (st' & c & Hsave & Hread & Ht & Hm).
  exists st', c. split; [exact Hsave|]. split; [exact Hread|].
  split; [|split; [|split; [|split; [|split; reflexivity]]]].
  - intros Hzero. rewrite Ht, Hzero. reflexivity.
  - intros Hzero. rewrite Hm, Hzero. reflexivity.
  - rewrite Ht. apply clone_num_not_zero.
    + by apply or_num_not_zero.
    + by apply or_num_truthy.
  - rewrite Hm. apply clone_num_not_zero.
    + by apply or_num_not_zero.
    + by apply or_num_truthy.
Qed.

Lemma C10_witness :
  read_config (heap st0) (getConfig st0) = Some (defaultConfig env0)
  /\ exists st' c,
       saveSettings env0 (form0 (js "0") (js "0")) st0 = Some st'
       /\ read_config (heap st') (getConfig st') = Some c
       /\ temperature c = Num num_0_7
       /\ maxTokens c = Num num_1000.
Proof.
  split; [reflexivity|].
  destruct (C10_zero_cannot_be_configured env0 (form0 (js "0") (js "0"))
              st0 (defaultConfig env0) eq_refl)
    as (st' & c & Hsave & Hread & Ht & Hm & _).
  exists st', c. split; [exact Hsave|]. split; [exact Hread|].
  split; [apply Ht | apply Hm]; reflexivity.
Defined.

(** ** Reading back what [JSON.stringify] wrote *)

Section QuoteFacts.

Local Ltac nbool :=
  repeat match goal with
    | |- context [N.leb ?a ?b] => destruct (N.leb_spec a b)
    | |- context [N.ltb ?a ?b] => destruct (N.ltb_spec a b)
    | |- context [N.eqb ?a ?b] => destruct (N.eqb_spec a b)
    | H : context [N.leb ?a ?b] |- _ => destruct (N.leb_spec a b)
    | H : context [N.ltb ?a ?b] |- _ => destruct (N.ltb_spec a b)
    | H : context [N.eqb ?a ?b] |- _ => destruct (N.eqb_spec a b)
    end.

Lemma hex_digit_is_hex d : d < 16 -> is_hex (hex_digit d) = true.
Proof.
  intros Hd. unfold is_hex, hex_digit, is_digit.
  nbool; simpl; try reflexivity; lia.
Qed.

Lemma hex_val_digit d : d < 16 -> hex_val (hex_digit d) = d.
Proof.
  intros Hd. unfold hex_val, hex_digit, is_digit.
  nbool; simpl; lia.
Qed.

Lemma hex4_escape c :
  c < 65536 ->
  hex4 (hex_digit (c / 4096 mod 16)) (hex_digit (c / 256 mod 16))
       (hex_digit (c / 16 mod 16)) (hex_digit (c mod 16)) = Some c.
Proof.
  intros Hc. unfold hex4.
  assert (H3 : c / 4096 mod 16 < 16) by (apply N.mod_lt; lia).
  assert (H2 : c / 256 mod 16 < 16) by (apply N.mod_lt; lia).
  assert (H1 : c / 16 mod 16 < 16) by (apply N.mod_lt; lia).
  assert (H0 : c mod 16 < 16) by (apply N.mod_lt; lia).
  rewrite !hex_digit_is_hex, !hex_val_digit by assumption. simpl.
  f_equal.
  assert (A1 : c / 256 = c / 16 / 16)
    by (rewrite N.Div0.div_div; reflexivity).
  assert (A2 : c / 4096 = c / 256 / 16)
    by (rewrite N.Div0.div_div; reflexivity).
  pose proof (N.div_mod c 16) as E0.
  pose proof (N.div_mod (c / 16) 16) as E1.
  pose proof (N.div_mod (c / 256) 16) as E2.
  assert (E3 : c / 4096 < 16) by (apply N.Div0.div_lt_upper_bound; lia).
  rewrite (N.mod_small (c / 4096) 16 E3).
  lia.
Qed.

Lemma parse_raw c t :
  32 <= c -> c <> 34 -> c <> 92 ->
  parse_string_body (c :: t) = prepend c (parse_string_body t).
Proof.
  intros H32 H34 H92. simpl.
  destruct (N.eqb_spec c 34); [contradiction|].
  destruct (N.eqb_spec c 92); [contradiction|].
  destruct (N.ltb_spec c 32); [lia|]. reflexivity.
Qed.

Lemma parse_unicode_escape c t :
  c < 65536 ->
  parse_string_body (unicode_escape c ++ t)
  = prepend c (parse_string_body t).
Proof.
  intros Hc. unfold unicode_escape.
  change (parse_string_body
            ([92; 117; hex_digit (c / 4096 mod 16);
              hex_digit (c / 256 mod 16); hex_digit (c / 16 mod 16);
              hex_digit (c mod 16)] ++ t))
    with (match hex4 (hex_digit (c / 4096 mod 16))
                  (hex_digit (c / 256 mod 16)) (hex_digit (c / 16 mod 16))
                  (hex_digit (c mod 16)), parse_string_body t with
          | Some u, Some (s, r) => Some (u :: s, r)
          | _, _ => None
          end).
  rewrite (hex4_escape c Hc). reflexivity.
Qed.

Lemma parse_quote_unit c t :
  parse_string_body (quote_unit c ++ t) = prepend c (parse_string_body t).
Proof.
  unfold quote_unit.
  destruct (N.eqb_spec c 8) as [->|H8]; [reflexivity|].
  destruct (N.eqb_spec c 9) as [->|H9]; [reflexivity|].
  destruct (N.eqb_spec c 10) as [->|H10]; [reflexivity|].
  destruct (N.eqb_spec c 12) as [->|H12]; [reflexivity|].
  destruct (N.eqb_spec c 13) as [->|H13]; [reflexivity|].
  destruct (N.eqb_spec c 34) as [->|H34]; [reflexivity|].
  destruct (N.eqb_spec c 92) as [->|H92]; [reflexivity|].
  destruct ((c <? 32) || is_lead c || is_trail c) eqn:Hesc.
  - apply parse_unicode_escape.
    unfold is_lead, is_trail in Hesc.
    nbool; simpl in Hesc; first [lia | discriminate].
  - apply parse_raw; [|assumption|assumption].
    apply orb_false_elim in Hesc as [Hesc _].
    apply orb_false_elim in Hesc as [Hlt _].
    apply N.ltb_ge in Hlt. exact Hlt.
Qed.

Lemma lead_is_raw c :
  is_lead c = true -> 32 <= c /\ c <> 34 /\ c <> 92 /\ c < 65536.
Proof.
  unfold is_lead. intros H. nbool; simpl in H; first [discriminate | lia].
Qed.

Lemma trail_is_raw c : is_trail c = true -> 32 <= c /\ c <> 34 /\ c <> 92.
Proof.
  unfold is_trail. intros H. nbool; simpl in H; first [discriminate | lia].
Qed.

(** The reader gets every string back from its quoted form. *)
Lemma parse_quote_body s rest :
  parse_string_body (quote_body s ++ 34 :: rest) = Some (s, rest).
Proof.
  remember (length s) as n eqn:Hn.
  revert s Hn. induction n as [n IH] using lt_wf_ind. intros s Hn.
  destruct s as [|c r]; [reflexivity|].
  cbn [quote_body].
  destruct (is_lead c) eqn:Hlead.
  - destruct (lead_is_raw c Hlead) as (H32 & H34 & H92 & H16).
    destruct r as [|d r'].
    + rewrite parse_unicode_escape by assumption. reflexivity.
    + destruct (is_trail d) eqn:Htrail.
      * destruct (trail_is_raw d Htrail) as (D32 & D34 & D92).
        change ((c :: d :: quote_body r') ++ 34 :: rest)
          with (c :: d :: quote_body r' ++ 34 :: rest).
        rewrite parse_raw, parse_raw by assumption.
        rewrite (IH (length r')); [reflexivity| |reflexivity].
        subst n. simpl. lia.
      * rewrite <- app_assoc, parse_unicode_escape by assumption.
        rewrite (IH (length (d :: r'))); [reflexivity| |reflexivity].
        subst n. simpl. lia.
  - rewrite <- app_assoc, parse_quote_unit.
    rewrite (IH (length r)); [reflexivity| |reflexivity].
    subst n. simpl. lia.
Qed.

End QuoteFacts.

Section ReaderFacts.

(** Appends nested to the right, conses outside. *)
Local Ltac flatten :=
  repeat first [rewrite <- !app_assoc | progress cbn [app]].

Lemma ws_only_app w1 w2 : ws_only w1 -> ws_only w2 -> ws_only (w1 ++ w2).
Proof. apply Forall_app_2. Qed.

Lemma ws_only_nil : ws_only [].
Proof. constructor. Qed.

Lemma ws_only_nl : ws_only nl.
Proof. repeat constructor. Qed.

Lemma ws_only_gap : ws_only gap.
Proof. repeat constructor. Qed.

Lemma skip_ws_ws w r : ws_only w -> skip_ws (w ++ r) = skip_ws r.
Proof.
  induction 1 as [|c w Hc _ IH]; simpl; [reflexivity|]. by rewrite Hc.
Qed.

Lemma skip_ws_head c r : is_ws c = false -> skip_ws (c :: r) = c :: r.
Proof. intros Hc. simpl. by rewrite Hc. Qed.

Lemma opener_not_ws d : opener d -> is_ws d = false.
Proof. intros [->|[->| ->]]; reflexivity. Qed.

Lemma stringify_head indent v :
  exists d t, stringify indent v = d :: t /\ opener d.
Proof.
  destruct v as [s|l|ps].
  - exists 34, (quote_body s ++ [34]). split; [reflexivity|]. by left.
  - destruct l; eexists 91, _; (split; [reflexivity|]); right; by left.
  - destruct ps; eexists 123, _; (split; [reflexivity|]); right; by right.
Qed.

Lemma skip_ws_stringify w indent v r :
  ws_only w ->
  skip_ws (w ++ stringify indent v ++ r) = stringify indent v ++ r.
Proof.
  intros Hw. rewrite skip_ws_ws by assumption.
  destruct (stringify_head indent v) as (d & t & -> & Hd).
  apply skip_ws_head, opener_not_ws, Hd.
Qed.

Lemma skip_space_stringify indent v r :
  skip_ws (32 :: stringify indent v ++ r) = stringify indent v ++ r.
Proof. apply (skip_ws_stringify [32]). repeat constructor. Qed.

Lemma join_cons sep p q ps :
  join sep (p :: q :: ps) = p ++ sep ++ join sep (q :: ps).
Proof. reflexivity. Qed.

(** The equations of the reader. *)
Lemma parse_value_string n r :
  parse_value (S n) (34 :: r)
  = match parse_string_body r with
    | Some (t, r1) => Some (JString t, r1)
    | None => None
    end.
Proof. reflexivity. Qed.

Lemma parse_value_array n r :
  parse_value (S n) (91 :: r)
  = match skip_ws r with
    | d :: r1 =>
        if d =? 93 then Some (JArray [], r1)
        else match parse_elements n (d :: r1) with
             | Some (vs, r2) => Some (JArray vs, r2)
             | None => None
             end
    | [] => None
    end.
Proof. reflexivity. Qed.

Lemma parse_value_object n r :
  parse_value (S n) (123 :: r)
  = match skip_ws r with
    | d :: r1 =>
        if d =? 125 then Some (JObject [], r1)
        else match parse_members n (d :: r1) with
             | Some (ms, r2) => Some (JObject ms, r2)
             | None => None
             end
    | [] => None
    end.
Proof. reflexivity. Qed.

Lemma parse_elements_S n s :
  parse_elements (S n) s
  = match parse_value n (skip_ws s) with
    | None => None
    | Some (v, r) =>
        match skip_ws r with
        | d :: r1 =>
            if d =? 44 then
              match parse_elements n r1 with
              | Some (vs, r2) => Some (v :: vs, r2)
              | None => None
              end
            else if d =? 93 then Some ([v], r1)
            else None
        | [] => None
        end
    end.
Proof. reflexivity. Qed.

Lemma parse_members_S n s :
  parse_members (S n) s
  = match skip_ws s with
    | q :: r0 =>
        if q =? 34 then
          match parse_string_body r0 with
          | None => None
          | Some (k, r1) =>
              match skip_ws r1 with
              | c :: r2 =>
                  if c =? 58 then
                    match parse_value n (skip_ws r2) with
                    | None => None
                    | Some (v, r3) =>
                        match skip_ws r3 with
                        | d :: r4 =>
                            if d =? 44 then
                              match parse_members n r4 with
                              | Some (ms, r5) => Some ((k, v) :: ms, r5)
                              | None => None
                              end
                            else if d =? 125 then Some ([(k, v)], r4)
                            else None
                        | [] => None
                        end
                    end
                  else None
              | [] => None
              end
          end
        else None
    | [] => None
    end.
Proof. reflexivity. Qed.

(** Induction on values, with the hypothesis for every element and every
    property value. *)
Lemma jsvalue_nested_ind (P : jsvalue -> Prop) :
  (forall s, P (VString s)) ->
  (forall l, Forall P l -> P (VArray l)) ->
  (forall ps, Forall (fun kv => P (snd kv)) ps -> P (VObject ps)) ->
  forall v, P v.
Proof.
  intros Hs Ha Ho. fix IH 1. intros [s|l|ps].
  - apply Hs.
  - apply Ha. induction l as [|x l IHl]; constructor; [apply IH | exact IHl].
  - apply Ho. induction ps as [|[k x] ps IHps]; constructor;
      [apply IH | exact IHps].
Qed.

Lemma parse_elements_join l :
  Forall reads_back l -> l <> [] ->
  forall inner indent rest fuel w,
    ws_only inner -> ws_only indent -> ws_only w ->
    (list_sum (map (fun x => S (size x)) l) <= fuel)%nat ->
    parse_elements fuel
      (w ++ join ([44] ++ nl ++ inner) (map (stringify inner) l)
         ++ nl ++ indent ++ 93 :: rest)
    = Some (map reading l, rest).
Proof.
  induction 1 as [|v l Hv Hl IH]; [congruence|]. intros _.
  intros inner indent rest fuel w Hinner Hindent Hw Hfuel.
  destruct fuel as [|n]; [simpl in Hfuel; lia|].
  simpl in Hfuel. rewrite parse_elements_S.
  destruct l as [|v2 l].
  - cbn [map join].
    rewrite skip_ws_stringify by assumption.
    rewrite (Hv inner _ n Hinner) by lia.
    rewrite skip_ws_ws by exact ws_only_nl.
    rewrite skip_ws_ws by assumption.
    reflexivity.
  - cbn [map]. rewrite join_cons. rewrite <- !app_assoc.
    rewrite skip_ws_stringify by assumption.
    rewrite (Hv inner _ n Hinner) by lia.
    cbn [app]. rewrite skip_ws_head by reflexivity.
    change (44 =? 44) with true. cbv iota.
    rewrite (app_assoc nl inner).
    match goal with |- match ?X with _ => _ end = _ =>
      replace X with (Some (map reading (v2 :: l), rest)) end;
      [reflexivity|].
    symmetry. apply IH; [discriminate|assumption|assumption| |lia].
    apply ws_only_app; [exact ws_only_nl | assumption].
Qed.

Lemma parse_members_join ps :
  Forall (fun kv => reads_back (snd kv)) ps -> ps <> [] ->
  forall inner indent rest fuel w,
    ws_only inner -> ws_only indent -> ws_only w ->
    (list_sum (map (fun kv => S (size (snd kv))) ps) <= fuel)%nat ->
    parse_members fuel
      (w ++ join ([44] ++ nl ++ inner)
              (map (fun kv => quote (fst kv) ++ [58; 32]
                              ++ stringify inner (snd kv)) ps)
         ++ nl ++ indent ++ 125 :: rest)
    = Some (map (fun kv => (fst kv, reading (snd kv))) ps, rest).
Proof.
  induction 1 as [|[k v] ps Hv Hps IH]; [congruence|]. intros _.
  intros inner indent rest fuel w Hinner Hindent Hw Hfuel.
  destruct fuel as [|n]; [simpl in Hfuel; lia|].
  simpl in Hfuel, Hv. rewrite parse_members_S.
  rewrite skip_ws_ws by assumption.
  destruct ps as [|kv2 ps].
  - cbn [map join fst snd]. unfold quote. flatten.
    rewrite skip_ws_head by reflexivity.
    change (34 =? 34) with true. cbv iota.
    rewrite parse_quote_body.
    rewrite skip_ws_head by reflexivity.
    change (58 =? 58) with true. cbv iota.
    rewrite skip_space_stringify.
    rewrite (Hv inner _ n Hinner) by lia.
    rewrite skip_ws_ws by exact ws_only_nl.
    rewrite skip_ws_ws by assumption.
    reflexivity.
  - cbn [map]. rewrite join_cons. cbn [fst snd]. unfold quote at 1.
    flatten.
    rewrite skip_ws_head by reflexivity.
    change (34 =? 34) with true. cbv iota.
    rewrite parse_quote_body.
    rewrite skip_ws_head by reflexivity.
    change (58 =? 58) with true. cbv iota.
    rewrite skip_space_stringify.
    rewrite (Hv inner _ n Hinner) by lia.
    rewrite skip_ws_head by reflexivity.
    change (44 =? 44) with true. cbv iota.
    rewrite (app_assoc nl inner).
    match goal with |- match ?X with _ => _ end = _ =>
      replace X
        with (Some (map (fun kv => (fst kv, reading (snd kv))) (kv2 :: ps),
                    rest)) end;
      [reflexivity|].
    symmetry.
    apply IH; [discriminate|assumption|assumption| |simpl in *; lia].
    apply ws_only_app; [exact ws_only_nl | assumption].
Qed.

Lemma join_opener sep p ps X :
  (exists d t, p = d :: t /\ opener d) ->
  exists d t, join sep (p :: ps) ++ X = d :: t /\ opener d.
Proof.
  intros (d & t & -> & Hd).
  destruct ps as [|q ps]; eexists d, _; (split; [reflexivity|exact Hd]).
Qed.

Lemma array_text indent v l rest :
  stringify indent (VArray (v :: l)) ++ rest
  = 91 :: (nl ++ indent ++ gap)
       ++ ([] ++ join ([44] ++ nl ++ indent ++ gap)
                   (map (stringify (indent ++ gap)) (v :: l))
              ++ nl ++ indent ++ 93 :: rest).
Proof. cbn [stringify]. flatten. reflexivity. Qed.

Lemma object_text indent kv ps rest :
  stringify indent (VObject (kv :: ps)) ++ rest
  = 123 :: (nl ++ indent ++ gap)
        ++ ([] ++ join ([44] ++ nl ++ indent ++ gap)
                    (map (fun kv => quote (fst kv) ++ [58; 32]
                                    ++ stringify (indent ++ gap) (snd kv))
                       (kv :: ps))
               ++ nl ++ indent ++ 125 :: rest).
Proof. cbn [stringify]. flatten. reflexivity. Qed.

Lemma opener_not_close d : opener d -> (d =? 93) = false /\ (d =? 125) = false.
Proof. intros [->|[->| ->]]; split; reflexivity. Qed.

(** The reader gets every value back from its text. *)
Lemma parse_value_stringify v : reads_back v.
Proof.
  induction v as [s|l IH|ps IH] using jsvalue_nested_ind;
    intros indent rest fuel Hindent Hfuel;
    (destruct fuel as [|n]; [simpl in Hfuel; lia|]).
  - cbn [stringify reading]. unfold quote. flatten.
    rewrite parse_value_string.
    by rewrite parse_quote_body.
  - cbn [reading]. destruct l as [|v l]; [reflexivity|].
    assert (Hinner : ws_only (indent ++ gap))
      by (apply ws_only_app; [assumption | exact ws_only_gap]).
    rewrite array_text, parse_value_array.
    rewrite skip_ws_ws by (apply ws_only_app; [exact ws_only_nl|assumption]).
    pose proof (parse_elements_join (v :: l) IH ltac:(discriminate)
                  (indent ++ gap) indent rest n [] Hinner Hindent
                  ws_only_nil) as Hels.
    cbn [size] in Hfuel. specialize (Hels ltac:(lia)).
    destruct (join_opener ([44] ++ nl ++ indent ++ gap)
                (stringify (indent ++ gap) v)
                (map (stringify (indent ++ gap)) l)
                (nl ++ indent ++ 93 :: rest)
                (stringify_head _ _)) as (d & t & Htext & Hd).
    match goal with |- match skip_ws ?X with _ => _ end = _ =>
      assert (Hels' : parse_elements n X = Some (map reading (v :: l), rest))
        by exact Hels;
      assert (E : X = d :: t) by exact Htext;
      rewrite E in Hels' |- *
    end.
    rewrite skip_ws_head by (apply opener_not_ws, Hd).
    destruct (opener_not_close d Hd) as [-> _].
    by rewrite Hels'.
  - cbn [reading]. destruct ps as [|[k v] ps]; [reflexivity|].
    assert (Hinner : ws_only (indent ++ gap))
      by (apply ws_only_app; [assumption | exact ws_only_gap]).
    rewrite object_text, parse_value_object.
    rewrite skip_ws_ws by (apply ws_only_app; [exact ws_only_nl|assumption]).
    pose proof (parse_members_join ((k, v) :: ps) IH ltac:(discriminate)
                  (indent ++ gap) indent rest n [] Hinner Hindent
                  ws_only_nil) as Hms.
    cbn [size] in Hfuel. specialize (Hms ltac:(lia)).
    destruct (join_opener ([44] ++ nl ++ indent ++ gap)
                (quote k ++ [58; 32] ++ stringify (indent ++ gap) v)
                (map (fun kv => quote (fst kv) ++ [58; 32]
                                ++ stringify (indent ++ gap) (snd kv)) ps)
                (nl ++ indent ++ 125 :: rest)
                ltac:(eexists 34, _; split; [reflexivity | by left]))
      as (d & t & Htext & Hd).
    match goal with |- match skip_ws ?X with _ => _ end = _ =>
      assert (Hms' : parse_members n X
                     = Some (map (fun kv => (fst kv, reading (snd kv)))
                               ((k, v) :: ps), rest))
        by exact Hms;
      assert (E : X = d :: t) by exact Htext;
      rewrite E in Hms' |- *
    end.
    rewrite skip_ws_head by (apply opener_not_ws, Hd).
    destruct (opener_not_close d Hd) as [_ ->].
    by rewrite Hms'.
Qed.

(** The text of a value is long enough to serve as fuel. *)
Lemma elements_size_le sep inner l :
  (1 <= length sep)%nat ->
  Forall (fun v => forall indent, (size v <= length (stringify indent v))%nat)
         l ->
  (list_sum (map (fun x => S (size x)) l)
   <= S (length (join sep (map (stringify inner) l))))%nat.
Proof.
  intros Hsep. induction 1 as [|v l Hv Hl IH]; [simpl; lia|].
  specialize (Hv inner).
  destruct l as [|v2 l].
  - simpl. unfold jsstring, unit16 in *. lia.
  - cbn [map] in *. rewrite join_cons.
    set (J := join sep (_ :: _)) in *.
    rewrite !length_app. simpl list_sum in *.
    unfold jsstring, unit16 in *. lia.
Qed.

Lemma members_size_le sep inner ps :
  (1 <= length sep)%nat ->
  Forall (fun kv => forall indent,
            (size (snd kv) <= length (stringify indent (snd kv)))%nat) ps ->
  (list_sum (map (fun kv => S (size (snd kv))) ps)
   <= S (length (join sep
                   (map (fun kv => quote (fst kv) ++ [58%N; 32%N]
                                   ++ stringify inner (snd kv)) ps))))%nat.
Proof.
  intros Hsep. induction 1 as [|[k v] ps Hv Hps IH]; [simpl; lia|].
  specialize (Hv inner). cbn [snd] in Hv.
  destruct ps as [|kv2 ps].
  - cbn [map join fst snd]. rewrite !length_app. simpl list_sum.
    unfold jsstring, unit16 in *. lia.
  - cbn [map fst snd] in *.
    rewrite join_cons. rewrite !length_app. simpl list_sum in *.
    cbn [fst snd]. unfold jsstring, unit16 in *. lia.
Qed.

Lemma size_le_length v :
  forall indent, (size v <= length (stringify indent v))%nat.
Proof.
  induction v as [s|l IH|ps IH] using jsvalue_nested_ind; intros indent.
  - simpl. lia.
  - destruct l as [|v l]; [simpl; lia|].
    pose proof (elements_size_le ([44] ++ nl ++ indent ++ gap)
                  (indent ++ gap) (v :: l) ltac:(simpl; lia) IH) as Hsum.
    cbn [stringify size]. rewrite !length_app.
    assert (Hnl : length nl = 1%nat) by reflexivity.
    unfold jsstring, unit16 in *. lia.
  - destruct ps as [|kv ps]; [simpl; lia|].
    pose proof (members_size_le ([44] ++ nl ++ indent ++ gap)
                  (indent ++ gap) (kv :: ps) ltac:(simpl; lia) IH) as Hsum.
    cbn [stringify size]. rewrite !length_app.
    assert (Hnl : length nl = 1%nat) by reflexivity.
    unfold jsstring, unit16 in *. lia.
Qed.

(** [JSON.parse(JSON.stringify(v, null, 2))] is [v]. *)
Lemma JSON_parse_stringify v : JSON_parse (JSON_stringify v) = Some (reading v).
Proof.
  unfold JSON_parse, JSON_stringify.
  destruct (stringify_head [] v) as (d & t & Htext & Hd).
  assert (Hskip : skip_ws (stringify [] v) = stringify [] v).
  { rewrite Htext. apply skip_ws_head, opener_not_ws, Hd. }
  rewrite Hskip.
  rewrite <- (app_nil_r (stringify [] v)) at 2.
  rewrite (parse_value_stringify v [] [] _ ws_only_nil (size_le_length v [])).
  reflexivity.
Qed.

End ReaderFacts.

(** ** The text of [JSON.stringify] has no lone surrogate *)

Section WellFormedFacts.

Local Ltac nbool :=
  repeat match goal with
    | |- context [N.leb ?a ?b] => destruct (N.leb_spec a b)
    | |- context [N.ltb ?a ?b] => destruct (N.ltb_spec a b)
    | |- context [N.eqb ?a ?b] => destruct (N.eqb_spec a b)
    end.

Lemma well_formed_app a b :
  well_formed a = true -> well_formed b = true -> well_formed (a ++ b) = true.
Proof.
  remember (length a) as n eqn:Hn. revert a Hn.
  induction n as [n IH] using lt_wf_ind. intros a Hn Ha Hb.
  destruct a as [|c r]; [exact Hb|]. simpl in *.
  destruct (is_lead c).
  - destruct r as [|d r']; [discriminate|]. simpl.
    apply andb_prop in Ha as [Hd Hr]. rewrite Hd. simpl.
    apply (IH (length r')); [subst n; simpl; lia|reflexivity|assumption..].
  - apply andb_prop in Ha as [Hc Hr]. rewrite Hc. simpl.
    apply (IH (length r)); [subst n; simpl; lia|reflexivity|assumption..].
Qed.

Lemma well_formed_plain s : Forall plain s -> well_formed s = true.
Proof.
  induction 1 as [|c r [Hl Ht] _ IH]; [reflexivity|].
  simpl. by rewrite Hl, Ht, IH.
Qed.

Lemma plain_below c : c < 55296 -> plain c.
Proof.
  intros Hc. unfold plain, is_lead, is_trail. nbool; simpl; split; lia.
Qed.

Lemma hex_digit_plain d : d < 16 -> plain (hex_digit d).
Proof.
  intros Hd. apply plain_below. unfold hex_digit. nbool; lia.
Qed.

Lemma unicode_escape_plain c : Forall plain (unicode_escape c).
Proof.
  unfold unicode_escape.
  repeat constructor; try (apply plain_below; lia);
    apply hex_digit_plain, N.mod_lt; lia.
Qed.

Lemma quote_unit_plain c : Forall plain (quote_unit c).
Proof.
  unfold quote_unit.
  repeat match goal with
    | |- context [N.eqb c ?k] => destruct (N.eqb_spec c k)
    end; try (repeat constructor; apply plain_below; lia).
  destruct ((c <? 32) || is_lead c || is_trail c) eqn:Hesc.
  - apply unicode_escape_plain.
  - apply orb_false_elim in Hesc as [Hesc Ht].
    apply orb_false_elim in Hesc as [_ Hl].
    repeat constructor; assumption.
Qed.

Lemma quote_body_well_formed s : well_formed (quote_body s) = true.
Proof.
  remember (length s) as n eqn:Hn. revert s Hn.
  induction n as [n IH] using lt_wf_ind. intros s Hn.
  destruct s as [|c r]; [reflexivity|]. cbn [quote_body].
  destruct (is_lead c) eqn:Hlead.
  - destruct r as [|d r'].
    + apply well_formed_plain, unicode_escape_plain.
    + destruct (is_trail d) eqn:Htrail.
      * cbn [well_formed]. rewrite Hlead, Htrail. simpl.
        apply (IH (length r')); [subst n; simpl; lia|reflexivity].
      * apply well_formed_app.
        -- apply well_formed_plain, unicode_escape_plain.
        -- apply (IH (length (d :: r'))); [subst n; simpl; lia|reflexivity].
  - apply well_formed_app.
    + apply well_formed_plain, quote_unit_plain.
    + apply (IH (length r)); [subst n; simpl; lia|reflexivity].
Qed.

Lemma quote_well_formed s : well_formed (quote s) = true.
Proof.
  unfold quote. change (34 :: quote_body s ++ [34])
    with ([34] ++ quote_body s ++ [34]).
  repeat apply well_formed_app;
    reflexivity || apply quote_body_well_formed.
Qed.

Lemma ws_only_well_formed w : ws_only w -> well_formed w = true.
Proof.
  intros Hw. apply well_formed_plain.
  eapply Forall_impl; [exact Hw|]. intros c Hc. apply plain_below.
  unfold is_ws in Hc. revert Hc. nbool; simpl; (discriminate || lia).
Qed.

Lemma join_well_formed sep parts :
  well_formed sep = true ->
  Forall (fun p => well_formed p = true) parts ->
  well_formed (join sep parts) = true.
Proof.
  intros Hsep. induction 1 as [|p ps Hp Hps IH]; [reflexivity|].
  destruct ps as [|q ps]; [exact Hp|].
  rewrite join_cons. repeat apply well_formed_app; assumption.
Qed.

Lemma stringify_well_formed v :
  forall indent, ws_only indent -> well_formed (stringify indent v) = true.
Proof.
  induction v as [s|l IH|ps IH] using jsvalue_nested_ind;
    intros indent Hindent;
    assert (Hi : well_formed indent = true) by (by apply ws_only_well_formed);
    assert (Hinner : ws_only (indent ++ gap))
      by (apply ws_only_app; [assumption | exact ws_only_gap]);
    assert (Hin : well_formed (indent ++ gap) = true)
      by (by apply ws_only_well_formed).
  - apply quote_well_formed.
  - destruct l as [|v l]; [reflexivity|]. cbn [stringify].
    repeat apply well_formed_app; try reflexivity; try assumption.
    apply join_well_formed.
    + repeat apply well_formed_app; reflexivity || assumption.
    + apply Forall_map. eapply Forall_impl; [exact IH|].
      intros x Hx. by apply Hx.
  - destruct ps as [|kv ps]; [reflexivity|]. cbn [stringify].
    repeat apply well_formed_app; try reflexivity; try assumption.
    apply join_well_formed.
    + repeat apply well_formed_app; reflexivity || assumption.
    + apply Forall_map. eapply Forall_impl; [exact IH|].
      intros [k x] Hx. cbn [fst snd] in *.
      apply well_formed_app; [apply quote_well_formed|].
      apply well_formed_app; [reflexivity | by apply Hx].
Qed.

(** What [saveChat] hands to [writeFileSync] under the json encoding is
    well-formed UTF-16, whatever the messages hold. *)
Lemma JSON_stringify_well_formed v : well_formed (JSON_stringify v) = true.
Proof. apply stringify_well_formed, ws_only_nil. Qed.

End WellFormedFacts.

(** ** JSON transcripts *)

Section TranscriptFacts.

Lemma role_of_name_role r : role_of_name (role_name r) = Some r.
Proof. destruct r; reflexivity. Qed.

Lemma message_of_value msg : message_of (reading (messageValue msg)) = Some msg.
Proof.
  unfold message_of. cbn [messageValue reading map fst snd].
  change (get (js "role")
            (JObject [(js "role", JString (role_name (role msg)));
                      (js "content", JString (content msg))]))
    with (Some (JString (role_name (role msg)))).
  change (get (js "content")
            (JObject [(js "role", JString (role_name (role msg)));
                      (js "content", JString (content msg))]))
    with (Some (JString (content msg))).
  cbv iota beta. rewrite role_of_name_role. by destruct msg.
Qed.

Lemma messages_of_values messages :
  messages_of (JArray (map reading (map messageValue messages)))
  = Some messages.
Proof.
  unfold messages_of. induction messages as [|msg ms IH]; [reflexivity|].
  cbn [map mapM]. rewrite message_of_value. simpl. rewrite IH. reflexivity.
Qed.

Lemma reading_messages messages :
  map reading (map messageValue messages)
  = map (fun msg => JObject [(js "role", JString (role_name (role msg)));
                             (js "content", JString (content msg))])
        messages.
Proof. rewrite map_map. reflexivity. Qed.

Lemma formatToUse_markdown cfg :
  formatToUse cfg = markdown <-> saveFormat cfg = Some (js "markdown").
Proof.
  unfold formatToUse. case_bool_decide; split; congruence.
Qed.

Lemma formatToUse_json cfg :
  saveFormat cfg <> Some (js "markdown") -> formatToUse cfg = json_format.
Proof. intros H. unfold formatToUse. by rewrite bool_decide_eq_false_2. Qed.

End TranscriptFacts.

(** C8: a save with the json encoding writes a text that [JSON.parse] reads
    back as an object whose [messages] are the conversation, message by
    message with role and content as they were and in the same order, and
    whose [provider] and [model] are those of the config at the save. The
    text has no lone surrogate, so the file holds it as it is. *)
Theorem C8_json_transcript_reads_back
    (env : ProcessEnv) (path_join : jsstring -> jsstring -> jsstring)
    (st : State) (cfg : LLMConfig) (clk : Clock) (messages : list Message)
    (title : option jsstring) (fs : FS) :
  read_config (heap st) (getConfig st) = Some cfg ->
  formatToUse cfg = json_format ->
  exists path fs' text parsed ms,
    saveChat env path_join st clk no_faults messages title fs
    = Some (Returns path, fs')
    /\ files fs' !! path = Some text
    /\ well_formed text = true
    /\ JSON_parse text = Some parsed
    /\ get (js "messages") parsed = Some ms
    /\ ms = JArray
              (map (fun msg =>
                      JObject [(js "role", JString (role_name (role msg)));
                               (js "content", JString (content msg))])
                 messages)
    /\ messages_of ms = Some messages
    /\ get (js "provider") parsed
       = Some (JString (provider_name (provider cfg)))
    /\ get (js "model") parsed = Some (JString (model cfg)).
Proof.
  intros Hcfg Hfmt.
  rewrite (saveChat_eq env path_join _ _ _ _ _ _ _ Hcfg).
  rewrite saveChat_with_ok by (auto || reflexivity).
  eexists _, _, (JSON_stringify (chatData cfg clk messages)),
    (reading (chatData cfg clk messages)), _.
  split; [reflexivity|]. split.
  { cbn [files]. rewrite lookup_insert_eq. unfold fileContent.
    by rewrite Hfmt. }
  split; [apply JSON_stringify_well_formed|].
  split; [apply JSON_parse_stringify|].
  split; [reflexivity|].
  split; [cbn [map snd]; by rewrite reading_messages|].
  split; [apply messages_of_values|].
  split; reflexivity.
Qed.

Lemma C8_witness :
  read_config (heap st0) (getConfig st0) = Some (defaultConfig env0)
  /\ formatToUse (defaultConfig env0) = json_format
  /\ exists path fs' text parsed ms,
       saveChat env0 join2 st0 clk0 no_faults hi_hello None fs0
       = Some (Returns path, fs')
       /\ files fs' !! path = Some text
       /\ well_formed text = true
       /\ JSON_parse text = Some parsed
       /\ get (js "messages") parsed = Some ms
       /\ ms = JArray
                 (map (fun msg =>
                         JObject [(js "role", JString (role_name (role msg)));
                                  (js "content", JString (content msg))])
                    hi_hello)
       /\ messages_of ms = Some hi_hello
       /\ get (js "provider") parsed
          = Some (JString (provider_name (provider (defaultConfig env0))))
       /\ get (js "model") parsed
          = Some (JString (model (defaultConfig env0))).
Proof.
  split; [reflexivity|]. split; [reflexivity|].
  apply (C8_json_transcript_reads_back env0 join2 st0 (defaultConfig env0)
           clk0 hi_hello None fs0); reflexivity.
Defined.

(** C7: the encoding is markdown exactly when [saveFormat] is the string
    [markdown]; with any other value, an empty one or none, the save uses
    the json encoding, writes a file whose name ends in [.json] and whose
    content [JSON.parse] accepts, and does not fail on that account. *)
Theorem C7_format_falls_back_to_json
    (env : ProcessEnv) (path_join : jsstring -> jsstring -> jsstring)
    (st : State) (cfg : LLMConfig) (clk : Clock) (messages : list Message)
    (title : option jsstring) (fs : FS) :
  read_config (heap st) (getConfig st) = Some cfg ->
  (formatToUse cfg = markdown <-> saveFormat cfg = Some (js "markdown"))
  /\ (saveFormat cfg <> Some (js "markdown") ->
      exists stem fs',
        saveChat env path_join st clk no_faults messages title fs
        = Some (Returns (path_join (saveDir env cfg) (stem ++ js ".json")), fs')
        /\ files fs' !! path_join (saveDir env cfg) (stem ++ js ".json")
           = Some (JSON_stringify (chatData cfg clk messages))
        /\ is_Some (JSON_parse (JSON_stringify (chatData cfg clk messages)))).
Proof.
  intros Hcfg. split; [apply formatToUse_markdown|].
  intros Hother. pose proof (formatToUse_json cfg Hother) as Hfmt.
  rewrite (saveChat_eq env path_join _ _ _ _ _ _ _ Hcfg).
  rewrite saveChat_with_ok by (auto || reflexivity).
  unfold filePath, filename, fileContent. rewrite Hfmt.
  cbn [fileExtension].
  destruct (truthy_str title).
  - exists (name_stamp (iso_for_name clk) ++ js "-" ++ slug (default [] title)).
    eexists. rewrite <- !app_assoc.
    split; [reflexivity|]. split.
    + cbn [files]. by rewrite lookup_insert_eq.
    + rewrite JSON_parse_stringify. by eexists.
  - exists (name_stamp (iso_for_name clk) ++ js "-chat").
    eexists. rewrite <- !app_assoc.
    split; [reflexivity|]. split.
    + cbn [files]. by rewrite lookup_insert_eq.
    + rewrite JSON_parse_stringify. by eexists.
Qed.

Lemma C7_witness :
  read_config (heap st_plain) (getConfig st_plain) = Some cfg_plain
  /\ saveFormat cfg_plain <> Some (js "markdown")
  /\ exists stem fs',
       saveChat env0 join2 st_plain clk0 no_faults hi_hello None fs0
       = Some (Returns (join2 (saveDir env0 cfg_plain) (stem ++ js ".json")),
               fs')
       /\ files fs' !! join2 (saveDir env0 cfg_plain) (stem ++ js ".json")
          = Some (JSON_stringify (chatData cfg_plain clk0 hi_hello))
       /\ is_Some (JSON_parse (JSON_stringify (chatData cfg_plain clk0 hi_hello))).
Proof.
  split; [reflexivity|]. split; [discriminate|].
  destruct (C7_format_falls_back_to_json env0 join2 st_plain cfg_plain clk0
              hi_hello None fs0 eq_refl) as [_ Hjson].
  apply Hjson. discriminate.
Defined.

(** * More properties of the code *)

(** ** [convertToLangChainMessages] and [sendMessage] *)

(** X1: [convertToLangChainMessages] loses nothing: it keeps the number and
    the order of the messages and their contents, and two conversations
    with the same conversion are the same conversation. *)
Theorem convertToLangChainMessages_lossless (a b : list Message) :
  length (convertToLangChainMessages a) = length a
  /\ map (fun m =>
            match m with
            | HumanMessage t | AIMessage t | SystemMessage t => t
            end) (convertToLangChainMessages a)
     = map content a
  /\ (convertToLangChainMessages a = convertToLangChainMessages b -> a = b).
Proof.
  unfold convertToLangChainMessages. split; [apply length_map|]. split.
  - rewrite map_map. apply map_ext. intros [[] t]; reflexivity.
  - revert b. induction a as [|[ra ca] a IH]; intros [|[rb cb] b] H;
      try discriminate; [reflexivity|].
    simpl in H. injection H as Hhead Htail.
    rewrite (IH b Htail).
    destruct ra, rb; simpl in Hhead; congruence.
Qed.

Lemma convertToLangChainMessages_lossless_witness :
  convertToLangChainMessages hi_hello = convertToLangChainMessages hi_hello
  /\ hi_hello = hi_hello.
Proof.
  split; [reflexivity|].
  apply (convertToLangChainMessages_lossless hi_hello hi_hello). reflexivity.
Defined.

(** X2: [sendMessage] calls the session's client once; what the provider
    returns is returned as it is, and a failure of the provider is thrown
    again as one error whose message names the provider of the current
    config before the provider's own message. *)
Theorem sendMessage_outcome
    (invoke : Binding -> list BaseMessage -> outcome jsstring)
    (messages : loc) (st : State) (C : list Message) (cfg : LLMConfig)
    (client : Binding) :
  read_messages (heap st) messages = Some C ->
  read_config (heap st) (getConfig st) = Some cfg ->
  read_model (heap st) (this_model (this st)) = Some client ->
  exists s sent,
    sendMessage invoke messages st = Some s
    /\ invocations s = [ {| callee := this_model (this st); given := sent |} ]
    /\ (forall text, invoke client sent = Returns text ->
        answer s = Returns text)
    /\ (forall message, invoke client sent = Throws message ->
        answer s
        = Throws (js "Failed to get response from "
                  ++ provider_name (provider cfg) ++ js ": " ++ message)).
Proof.
  intros HC Hcfg Hclient. unfold sendMessage, getConfig in *.
  rewrite HC, Hcfg, Hclient. simpl.
  eexists _, _. split; [reflexivity|]. simpl. split; [reflexivity|].
  split; intros ? ->; reflexivity.
Qed.

Lemma sendMessage_outcome_witness :
  read_messages (heap st_chat) 3%positive = Some hi_hello
  /\ exists s,
       sendMessage failing 3%positive st_chat = Some s
       /\ answer s
          = Throws (js "Failed to get response from anthropic: 401 Unauthorized").
Proof.
  split; [reflexivity|].
  destruct (sendMessage_outcome failing 3%positive st_chat hi_hello
              (defaultConfig env0) (binding env0 (defaultConfig env0))
              eq_refl eq_refl eq_refl)
    as (s & sent & Hsend & _ & _ & Hthrow).
  exists s. split; [exact Hsend|].
  apply (Hthrow (js "401 Unauthorized")). reflexivity.
Defined.

(** ** [updateConfig]: values *)

Section UpdateValues.

Variable env : ProcessEnv.

Lemma clone_num_idem v : clone_num (clone_num v) = clone_num v.
Proof. destruct v as [|[]]; reflexivity. Qed.

Lemma clone_num_json v : json_number (clone_num v).
Proof. destruct v as [|[]]; simpl; auto. Qed.

Lemma clone_num_fixed v : json_number v -> clone_num v = v.
Proof. destruct v as [|[[]| | |]]; simpl; intros; congruence || contradiction. Qed.

Lemma clone_config_idem c : clone_config (clone_config c) = clone_config c.
Proof. unfold clone_config; simpl. by rewrite !clone_num_idem. Qed.

Lemma merge_again cur n :
  clone_config (merge (clone_config (merge cur n)) n)
  = clone_config (merge cur n).
Proof.
  unfold clone_config, merge; simpl.
  destruct n as [pp pm pk pt px ps pd pf]; simpl.
  destruct pp, pm, pk, pt, px, ps, pd, pf; simpl;
    rewrite ?clone_num_idem; reflexivity.
Qed.

Lemma updateConfig_total n st cur :
  read_config (heap st) (getConfig st) = Some cur ->
  exists st',
    updateConfig env n st = Some st'
    /\ read_config (heap st') (getConfig st')
       = Some (clone_config (merge cur n))
    /\ read_model (heap st') (this_model (this st'))
       = Some (binding env (clone_config (merge cur n))).
Proof.
  intros Hcur.
  destruct (updateConfig env n st) as [st'|] eqn:Hup.
  - exists st'. split; [reflexivity|]. split.
    + exact (updateConfig_config env n st cur st' Hcur Hup).
    + exact (updateConfig_model env n st cur st' Hcur Hup).
  - rewrite (updateConfig_eq env _ _ _ Hcur) in Hup. discriminate.
Qed.

End UpdateValues.

(** X3: [updateConfig] is idempotent on values: giving it the same fields a
    second time leaves the config and the arguments of the client as the
    first call left them (the two objects themselves are created anew). *)
Theorem updateConfig_idempotent
    (env : ProcessEnv) (n : PartialConfig) (st : State) (cur : LLMConfig) :
  read_config (heap st) (getConfig st) = Some cur ->
  exists st1 st2,
    updateConfig env n st = Some st1
    /\ updateConfig env n st1 = Some st2
    /\ read_config (heap st2) (getConfig st2)
       = read_config (heap st1) (getConfig st1)
    /\ read_model (heap st2) (this_model (this st2))
       = read_model (heap st1) (this_model (this st1))
    /\ getConfig st2 <> getConfig st1.
Proof.
  intros Hcur.
  destruct (updateConfig_total env n st cur Hcur) as (st1 & Hup1 & Hc1 & Hm1).
  destruct (updateConfig_total env n st1 _ Hc1) as (st2 & Hup2 & Hc2 & Hm2).
  exists st1, st2. split; [exact Hup1|]. split; [exact Hup2|].
  rewrite Hc2, Hm2, Hc1, Hm1, merge_again. split; [reflexivity|].
  split; [reflexivity|].
  destruct (updateConfig_fresh env n st1 _ st2 Hc1 Hup2) as [Hnew _].
  intros Heq. rewrite Heq in Hnew. unfold read_config in Hc1.
  rewrite Hnew in Hc1. discriminate.
Qed.

Lemma updateConfig_idempotent_witness :
  read_config (heap st0) (getConfig st0) = Some (defaultConfig env0)
  /\ exists st1 st2,
       updateConfig env0 (only_provider openai) st0 = Some st1
       /\ updateConfig env0 (only_provider openai) st1 = Some st2
       /\ read_config (heap st2) (getConfig st2)
          = read_config (heap st1) (getConfig st1)
       /\ read_model (heap st2) (this_model (this st2))
          = read_model (heap st1) (this_model (this st1))
       /\ getConfig st2 <> getConfig st1.
Proof.
  split; [reflexivity|].
  apply (updateConfig_idempotent env0 (only_provider openai) st0
           (defaultConfig env0)).
  reflexivity.
Defined.

(** X4: whatever numbers it is given or finds, [updateConfig] leaves a config
    whose temperature and maxTokens are [null] or finite numbers other than
    [-0]: a [NaN] or an infinity becomes [null]. *)
Theorem updateConfig_numbers_as_json
    (env : ProcessEnv) (n : PartialConfig) (st : State) (cur : LLMConfig) :
  read_config (heap st) (getConfig st) = Some cur ->
  exists st' c,
    updateConfig env n st = Some st'
    /\ read_config (heap st') (getConfig st') = Some c
    /\ json_number (temperature c) /\ json_number (maxTokens c)
    /\ (p_temperature n = Some (Num NaN) -> temperature c = Null)
    /\ (forall s, p_temperature n = Some (Num (S754_infinity s)) ->
        temperature c = Null).
Proof.
  intros Hcur.
  destruct (updateConfig_total env n st cur Hcur) as (st' & Hup & Hc & _).
  eexists st', _. split; [exact Hup|]. split; [exact Hc|].
  split; [apply clone_num_json|]. split; [apply clone_num_json|].
  split; [|intros s]; intros Hn; simpl; rewrite Hn; reflexivity.
Qed.

Lemma updateConfig_numbers_as_json_witness :
  read_config (heap st0) (getConfig st0) = Some (defaultConfig env0)
  /\ exists st' c,
       updateConfig env0 no_change st0 = Some st'
       /\ read_config (heap st') (getConfig st') = Some c
       /\ json_number (temperature c) /\ json_number (maxTokens c).
Proof.
  split; [reflexivity|].
  destruct (updateConfig_numbers_as_json env0 no_change st0
              (defaultConfig env0) eq_refl)
    as (st' & c & Hup & Hc & Ht & Hm & _).
  exists st', c. auto.
Defined.

(** X5: [updateConfig] changes no object that existed before the call: the
    config object the session had keeps every value, so a holder of the old
    config sees no change, and the session's config afterwards is another
    object. *)
Theorem updateConfig_leaves_old_objects
    (env : ProcessEnv) (n : PartialConfig) (st st' : State) (cur : LLMConfig) :
  read_config (heap st) (getConfig st) = Some cur ->
  updateConfig env n st = Some st' ->
  (forall l, is_Some (heap st !! l) -> heap st' !! l = heap st !! l)
  /\ read_config (heap st') (getConfig st) = Some cur
  /\ getConfig st' <> getConfig st.
Proof.
  intros Hcur Hup.
  assert (Hframe : forall l, is_Some (heap st !! l) ->
                             heap st' !! l = heap st !! l)
    by (intros l; apply (updateConfig_frame env n st st' l Hup)).
  split; [exact Hframe|].
  assert (Hold : is_Some (heap st !! getConfig st)).
  { unfold read_config in Hcur. destruct (heap st !! getConfig st); [by eexists|].
    discriminate. }
  split.
  - unfold read_config. rewrite (Hframe _ Hold). exact Hcur.
  - destruct (updateConfig_fresh env n st cur st' Hcur Hup) as [Hnew _].
    intros Heq. rewrite Heq in Hnew. rewrite Hnew in Hold. by destruct Hold.
Qed.

Lemma updateConfig_leaves_old_objects_witness :
  read_config (heap st0) (getConfig st0) = Some (defaultConfig env0)
  /\ exists st',
       updateConfig env0 (only_provider openai) st0 = Some st'
       /\ read_config (heap st') (getConfig st0) = Some (defaultConfig env0)
       /\ getConfig st' <> getConfig st0.
Proof.
  split; [reflexivity|].
  destruct (updateConfig env0 (only_provider openai) st0) as [st'|] eqn:Hup;
    [|vm_compute in Hup; discriminate].
  exists st'. split; [reflexivity|].
  apply (updateConfig_leaves_old_objects env0 (only_provider openai) st0 st'
           (defaultConfig env0)); [reflexivity | exact Hup].
Defined.

(** ** The client follows the config *)

Section SyncFacts.

Variable env : ProcessEnv.
Variable invoke : Binding -> list BaseMessage -> outcome jsstring.

Lemma read_config_alloc o h l :
  is_Some (h !! l) -> read_config (alloc o h).2 l = read_config h l.
Proof. intros Hl. unfold read_config. by rewrite alloc_old. Qed.

Lemma read_model_alloc o h l :
  is_Some (h !! l) -> read_model (alloc o h).2 l = read_model h l.
Proof. intros Hl. unfold read_model. by rewrite alloc_old. Qed.

Lemma read_config_is_Some h l c : read_config h l = Some c -> is_Some (h !! l).
Proof.
  unfold read_config. destruct (h !! l); [by eexists | discriminate].
Qed.

Lemma read_model_is_Some h l b : read_model h l = Some b -> is_Some (h !! l).
Proof.
  unfold read_model. destruct (h !! l); [by eexists | discriminate].
Qed.

(** Sending the messages of a new array: the session keeps its config and
    its client. *)
Lemma send_new_array msgs st cfg client :
  read_config (heap st) (getConfig st) = Some cfg ->
  read_model (heap st) (this_model (this st)) = Some client ->
  exists s,
    sendMessage invoke (alloc (MessageArray msgs) (heap st)).1
      {| heap := (alloc (MessageArray msgs) (heap st)).2; this := this st |}
    = Some s
    /\ this (after s) = this st
    /\ read_config (heap (after s)) (getConfig st) = Some cfg
    /\ read_model (heap (after s)) (this_model (this st)) = Some client
    /\ (forall l, is_Some (heap st !! l) ->
        heap (after s) !! l = heap st !! l)
    /\ map given (invocations s)
       = [ if truthy_str (systemPrompt cfg)
              && negb (existsb (fun msg => bool_decide (role msg = system)) msgs)
           then SystemMessage (default [] (systemPrompt cfg))
                :: convertToLangChainMessages msgs
           else convertToLangChainMessages msgs ]
    /\ answer s
       = match invoke client
                 (if truthy_str (systemPrompt cfg)
                     && negb (existsb
                                (fun msg => bool_decide (role msg = system))
                                msgs)
                  then SystemMessage (default [] (systemPrompt cfg))
                       :: convertToLangChainMessages msgs
                  else convertToLangChainMessages msgs) with
         | Returns text => Returns text
         | Throws message =>
             Throws (js "Failed to get response from "
                     ++ provider_name (provider cfg) ++ js ": " ++ message)
         end.
Proof.
  intros Hcfg Hclient.
  pose proof (read_config_is_Some _ _ _ Hcfg) as Hc.
  pose proof (read_model_is_Some _ _ _ Hclient) as Hm.
  unfold sendMessage. cbn [heap this].
  unfold read_messages at 1. rewrite alloc_lookup. cbn.
  unfold getConfig in *.
  rewrite read_config_alloc, Hcfg by assumption. cbn.
  rewrite read_model_alloc, Hclient by assumption. cbn.
  eexists. split; [reflexivity|]. cbn.
  split; [reflexivity|].
  split; [by rewrite read_config_alloc|].
  split; [by rewrite read_model_alloc|].
  split; [intros l Hl; by apply alloc_old|].
  split; reflexivity.
Qed.



End SyncFacts.


(** X7: a value written through the object [getConfig()] returned reaches
    the config but not the client: after such a write of another
    temperature the session shows the new temperature while its client
    still has the old one. *)
Theorem write_through_getConfig_leaves_client
    (env : ProcessEnv) (st : State) (cur : LLMConfig) (v : numval) :
  read_config (heap st) (getConfig st) = Some cur ->
  read_model (heap st) (this_model (this st)) = Some (binding env cur) ->
  v <> temperature cur ->
  read_config (heap (mutate (getConfig st) (set_temperature v) st))
              (getConfig (mutate (getConfig st) (set_temperature v) st))
  = Some (set_temperature v cur)
  /\ (exists client,
        read_model (heap (mutate (getConfig st) (set_temperature v) st))
                   (this_model (this (mutate (getConfig st)
                                         (set_temperature v) st)))
        = Some client
        /\ b_temperature client = temperature cur)
  /\ ~ in_sync env (mutate (getConfig st) (set_temperature v) st).
Proof.
  intros Hc Hm Hv.
  assert (Hne : getConfig st <> this_model (this st)).
  { intros Heq. unfold read_config, read_model in *. rewrite Heq in Hc.
    destruct (heap st !! this_model (this st)) as [[]|]; discriminate. }
  assert (Hcfg' : read_config (heap (mutate (getConfig st) (set_temperature v) st))
                    (getConfig st) = Some (set_temperature v cur)).
  { unfold mutate; simpl. by rewrite read_config_assign, Hc. }
  assert (Hmod' : read_model (heap (mutate (getConfig st) (set_temperature v) st))
                    (this_model (this st)) = Some (binding env cur)).
  { unfold mutate, read_model, assign in *; simpl.
    by rewrite lookup_alter_ne. }
  split; [exact Hcfg'|]. split.
  - exists (binding env cur). split; [exact Hmod'|].
    unfold binding. by destruct (provider cur).
  - intros (c & Hc' & Hm'). unfold mutate, getConfig in *; simpl in *.
    rewrite Hcfg' in Hc'. injection Hc' as <-.
    rewrite Hmod' in Hm'. injection Hm' as Hb.
    apply Hv. 
    assert (Ht : b_temperature (binding env cur)
                 = b_temperature (binding env (set_temperature v cur)))
      by (by rewrite Hb).
    unfold binding in Ht. simpl in Ht.
    destruct (provider cur); simpl in Ht; congruence.
Qed.

Lemma write_through_getConfig_leaves_client_witness :
  read_config (heap st0) (getConfig st0) = Some (defaultConfig env0)
  /\ Null <> temperature (defaultConfig env0)
  /\ ~ in_sync env0 (mutate (getConfig st0) (set_temperature Null) st0).
Proof.
  split; [reflexivity|]. split; [discriminate|].
  apply (write_through_getConfig_leaves_client env0 st0 (defaultConfig env0)
           Null); [reflexivity | reflexivity | discriminate].
Defined.

(** ** What a save of the settings form can and cannot change *)

Section FormFacts.

Variable env : ProcessEnv.

Lemma saveSettings_total f st cur :
  read_config (heap st) (getConfig st) = Some cur ->
  exists st',
    saveSettings env f st = Some st'
    /\ read_config (heap st') (getConfig st')
       = Some (clone_config
                 (merge cur (as_partial (clone_config (newConfig f cur)))))
    /\ read_model (heap st') (this_model (this st'))
       = Some (binding env
                 (clone_config
                    (merge cur (as_partial (clone_config (newConfig f cur)))))).
Proof.
  intros Hcur. unfold saveSettings. rewrite Hcur. simpl.
  apply updateConfig_total, Hcur.
Qed.

(** The directory of the config is what a save of the form keeps. *)
Lemma saved_saveDirectory f cur :
  saveDirectory
    (clone_config (merge cur (as_partial (clone_config (newConfig f cur)))))
  = saveDirectory cur.
Proof. simpl. by destruct (saveDirectory cur). Qed.

Lemma newConfig_again f cur :
  newConfig f
    (clone_config (merge cur (as_partial (clone_config (newConfig f cur)))))
  = newConfig f cur.
Proof.
  pose proof (saved_saveDirectory f cur) as Hdir.
  unfold newConfig at 1. rewrite Hdir. reflexivity.
Qed.

End FormFacts.

(** X8: the settings form cannot clear the API key or the system prompt: a
    save with the field empty keeps the value the config had; with the
    field filled the config takes the text of the field. *)
Theorem saveSettings_keeps_what_is_left_empty
    (env : ProcessEnv) (f : Form) (st : State) (cur : LLMConfig) :
  read_config (heap st) (getConfig st) = Some cur ->
  exists st' c,
    saveSettings env f st = Some st'
    /\ read_config (heap st') (getConfig st') = Some c
    /\ (f_apiKey f = [] -> apiKey c = apiKey cur)
    /\ (f_systemPrompt f = [] -> systemPrompt c = systemPrompt cur)
    /\ (f_apiKey f <> [] -> apiKey c = Some (f_apiKey f))
    /\ (f_systemPrompt f <> [] -> systemPrompt c = Some (f_systemPrompt f)).
Proof.
  intros Hcur.
  destruct (saveSettings_total env f st cur Hcur) as (st' & Hsave & Hc & _).
  eexists st', _. split; [exact Hsave|]. split; [exact Hc|]. simpl.
  repeat split.
  - by intros ->.
  - by intros ->.
  - destruct (f_apiKey f); [congruence | reflexivity].
  - destruct (f_systemPrompt f); [congruence | reflexivity].
Qed.

Lemma saveSettings_keeps_what_is_left_empty_witness :
  read_config (heap st0) (getConfig st0) = Some (defaultConfig env0)
  /\ exists st' c,
       saveSettings env0
         {| f_provider := anthropic; f_model := js "claude-3-opus-20240229";
            f_apiKey := []; f_temperature := js "0.7";
            f_maxTokens := js "1000"; f_systemPrompt := [];
            f_saveFormat := js "json" |} st0 = Some st'
       /\ read_config (heap st') (getConfig st') = Some c
       /\ systemPrompt c = Some (js "You are a helpful AI assistant.").
Proof.
  split; [reflexivity|].
  destruct (saveSettings_keeps_what_is_left_empty env0
              {| f_provider := anthropic; f_model := js "claude-3-opus-20240229";
                 f_apiKey := []; f_temperature := js "0.7";
                 f_maxTokens := js "1000"; f_systemPrompt := [];
                 f_saveFormat := js "json" |} st0 (defaultConfig env0) eq_refl)
    as (st' & c & Hsave & Hc & _ & Hprompt & _).
  exists st', c. split; [exact Hsave|]. split; [exact Hc|].
  apply Hprompt. reflexivity.
Defined.

(** X9: Enter on the save-format field reaches two handlers that both call
    [saveSettings]: the config and the arguments of the client end as one
    call leaves them, [onSave] runs twice and the client is built twice. *)
Theorem return_on_saveFormat_saves_twice
    (env : ProcessEnv) (p : Panel) (st : State) (cur : LLMConfig) :
  currentField p = saveFormat_field ->
  read_config (heap st) (getConfig st) = Some cur ->
  exists r once,
    onReturn env p st = Some r
    /\ saved r = 2%nat
    /\ saveSettings env (form p) st = Some once
    /\ read_config (heap (state r)) (getConfig (state r))
       = read_config (heap once) (getConfig once)
    /\ read_model (heap (state r)) (this_model (this (state r)))
       = read_model (heap once) (this_model (this once))
    /\ this_model (this (state r)) <> this_model (this once).
Proof.
  intros Hfld Hcur. unfold onReturn. rewrite Hfld.
  destruct (saveSettings_total env (form p) st cur Hcur)
    as (st1 & Hs1 & Hc1 & Hm1).
  destruct (saveSettings_total env (form p) st1 _ Hc1)
    as (st2 & Hs2 & Hc2 & Hm2).
  rewrite Hs1. simpl. rewrite Hs2. simpl.
  eexists _, st1. split; [reflexivity|]. simpl.
  split; [reflexivity|]. split; [reflexivity|].
  rewrite newConfig_again, merge_again in Hc2, Hm2.
  rewrite Hc2, Hm2, Hc1, Hm1. split; [reflexivity|]. split; [reflexivity|].
  unfold saveSettings in Hs2. rewrite Hc1 in Hs2. simpl in Hs2.
  destruct (updateConfig_fresh env _ st1 _ st2 Hc1 Hs2) as [_ Hnew].
  intros Heq. rewrite Heq in Hnew. unfold read_model in Hm1.
  rewrite Hnew in Hm1. discriminate.
Qed.

Lemma return_on_saveFormat_saves_twice_witness :
  currentField (panel0 saveFormat_field 0) = saveFormat_field
  /\ read_config (heap st0) (getConfig st0) = Some (defaultConfig env0)
  /\ exists r once,
       onReturn env0 (panel0 saveFormat_field 0) st0 = Some r
       /\ saved r = 2%nat
       /\ saveSettings env0 (form (panel0 saveFormat_field 0)) st0 = Some once
       /\ read_config (heap (state r)) (getConfig (state r))
          = read_config (heap once) (getConfig once)
       /\ read_model (heap (state r)) (this_model (this (state r)))
          = read_model (heap once) (this_model (this once))
       /\ this_model (this (state r)) <> this_model (this once).
Proof.
  split; [reflexivity|]. split; [reflexivity|].
  apply (return_on_saveFormat_saves_twice env0 (panel0 saveFormat_field 0) st0
           (defaultConfig env0)); reflexivity.
Defined.

(** ** [SelectInput] *)

Section SelectFacts.

Local Open Scope Z_scope.

Implicit Types (items : list jsstring) (value : jsstring) (h i : Z).

Lemma eqb_true a b : JSString.eqb a b = true <-> a = b.
Proof. unfold JSString.eqb. apply bool_decide_eq_true. Qed.

Lemma eqb_false a b : JSString.eqb a b = false <-> a <> b.
Proof. unfold JSString.eqb. apply bool_decide_eq_false. Qed.

(** [findIndex] gives [-1] when the value is not there, and the place of
    its first occurrence when it is. *)
Lemma findIndex_from_cases items value i :
  ((findIndex_from items value i = -1 /\ (value ∉ items) /\ i <> -1)
   \/ (i <= findIndex_from items value i < i + len items
       /\ items !! Z.to_nat (findIndex_from items value i - i) = Some value))
  \/ i < 0.
Proof.
  destruct (Z_lt_le_dec i 0) as [Hneg|Hpos]; [by right|]. left.
  revert i Hpos. induction items as [|item rest IH]; intros i Hpos.
  - left. simpl. repeat split; [apply not_elem_of_nil | lia].
  - simpl. destruct (JSString.eqb item value) eqn:Heq.
    + right. apply eqb_true in Heq as ->. unfold len. simpl length.
      split; [lia|]. by rewrite Z.sub_diag.
    + apply eqb_false in Heq.
      destruct (IH (i + 1) ltac:(lia)) as [(Hr & Hnot & _)|[Hr Hat]].
      * left. rewrite Hr. repeat split; [|lia].
        rewrite elem_of_cons. intros [->|Hin]; [congruence | contradiction].
      * right. unfold len in *. simpl length. split; [lia|].
        replace (Z.to_nat (findIndex_from rest value (i + 1) - i))
          with (S (Z.to_nat (findIndex_from rest value (i + 1) - (i + 1))))
          by lia.
        exact Hat.
Qed.

Lemma findIndex_cases items value :
  (findIndex items value = -1 /\ (value ∉ items))
  \/ (in_range items (findIndex items value)
      /\ at_index items (findIndex items value) = Some value).
Proof.
  unfold findIndex, in_range, at_index.
  destruct (findIndex_from_cases items value 0)
    as [[(Hr & Hnot & _)|[Hr Hat]]|Hneg]; [by left| |lia].
  right. split; [lia|].
  destruct (Z.ltb_spec (findIndex_from items value 0) 0); [lia|].
  by rewrite Z.sub_0_r in Hat.
Qed.

Lemma mounted_initial items value : mounted items value = initialIndex items value.
Proof.
  unfold mounted, valueEffect, initialIndex.
  destruct (findIndex_cases items value) as [[-> _]|[[Hr _] _]];
    [reflexivity|].
  destruct (Z.eqb_spec (findIndex items value) (-1)); simpl; lia.
Qed.

Lemma valueEffect_in_range items value h :
  in_range items h -> in_range items (valueEffect items value h).
Proof.
  intros Hh. unfold valueEffect.
  destruct (findIndex_cases items value) as [[-> _]|[Hr _]]; [exact Hh|].
  destruct (Z.eqb_spec (findIndex items value) (-1)); simpl; assumption.
Qed.

Lemma mounted_in_range items value :
  items <> [] -> in_range items (mounted items value).
Proof.
  intros Hne. rewrite mounted_initial. unfold initialIndex.
  destruct (findIndex_cases items value) as [[-> _]|[Hr _]].
  - unfold in_range, len. destruct items; [congruence|]. simpl length. lia.
  - unfold in_range in *. lia.
Qed.

Lemma upArrow_in_range items h :
  in_range items h -> in_range items (upArrow items h).
Proof.
  unfold in_range, upArrow. intros Hh.
  destruct (Z.gtb_spec h 0); lia.
Qed.

Lemma downArrow_in_range items h :
  in_range items h -> in_range items (downArrow items h).
Proof.
  unfold in_range, downArrow. intros Hh.
  destruct (Z.ltb_spec h (len items - 1)); lia.
Qed.

Lemma selectedValue_in_range items h :
  in_range items h -> exists v, selectedValue items h = Some v /\ v ∈ items.
Proof.
  unfold in_range, selectedValue, at_index, len. intros Hh.
  destruct (Z.ltb_spec h 0); [lia|].
  destruct (items !! Z.to_nat h) as [v|] eqn:Hat.
  - exists v. split; [reflexivity|]. by eapply list_elem_of_lookup_2.
  - apply lookup_ge_None in Hat. lia.
Qed.

Lemma downArrow_mod items h :
  in_range items h -> downArrow items h = (h + 1) mod len items.
Proof.
  unfold in_range, downArrow. intros Hh.
  destruct (Z.ltb_spec h (len items - 1)).
  - symmetry. apply Z.mod_small. lia.
  - replace (h + 1) with (len items) by lia.
    symmetry. apply Z_mod_same_full.
Qed.

Lemma upArrow_mod items h :
  in_range items h -> upArrow items h = (h - 1) mod len items.
Proof.
  unfold in_range, upArrow. intros Hh.
  destruct (Z.gtb_spec h 0).
  - symmetry. apply Z.mod_small. lia.
  - apply (Z.mod_unique (h - 1) (len items) (-1)); lia.
Qed.

Lemma iter_downArrow items h n :
  in_range items h ->
  Nat.iter n (downArrow items) h = (h + Z.of_nat n) mod len items.
Proof.
  intros Hh. induction n as [|n IH].
  - simpl. rewrite Z.add_0_r. symmetry. apply Z.mod_small. exact Hh.
  - rewrite Nat.iter_succ, IH.
    rewrite downArrow_mod
      by (apply Z.mod_pos_bound; unfold in_range in Hh; lia).
    rewrite Zplus_mod_idemp_l. f_equal. lia.
Qed.

Lemma iter_upArrow items h n :
  in_range items h ->
  Nat.iter n (upArrow items) h = (h - Z.of_nat n) mod len items.
Proof.
  intros Hh. induction n as [|n IH].
  - simpl. rewrite Z.sub_0_r. symmetry. apply Z.mod_small. exact Hh.
  - rewrite Nat.iter_succ, IH.
    rewrite upArrow_mod
      by (apply Z.mod_pos_bound; unfold in_range in Hh; lia).
    rewrite Zminus_mod_idemp_l. f_equal. lia.
Qed.

End SelectFacts.

(** X10: a [SelectInput] over a non-empty list keeps its highlighted index
    inside the list: the index it is mounted with is inside, the arrows and
    the effect keep it inside, and so Enter always hands [onChange] one of
    the items. *)
Theorem select_index_stays_in_range
    (items : list jsstring) (value : jsstring) (h : Z) :
  items <> [] ->
  in_range items (mounted items value)
  /\ (in_range items h ->
      in_range items (upArrow items h)
      /\ in_range items (downArrow items h)
      /\ in_range items (valueEffect items value h)
      /\ exists v, selectedValue items h = Some v /\ v ∈ items).
Proof.
  intros Hne. split; [by apply mounted_in_range|]. intros Hh.
  split; [by apply upArrow_in_range|].
  split; [by apply downArrow_in_range|].
  split; [by apply valueEffect_in_range|].
  by apply selectedValue_in_range.
Qed.

Lemma select_index_stays_in_range_witness :
  availableModels openai <> []
  /\ in_range (availableModels openai) 3
  /\ in_range (availableModels openai) (downArrow (availableModels openai) 3)
  /\ exists v, selectedValue (availableModels openai) 3 = Some v
               /\ v ∈ availableModels openai.
Proof.
  split; [discriminate|].
  assert (H3 : in_range (availableModels openai) 3)
    by (unfold in_range; vm_compute; split; [discriminate | reflexivity]).
  split; [exact H3|].
  destruct (select_index_stays_in_range (availableModels openai) [] 3)
    as [_ Hkeep]; [discriminate|].
  destruct (Hkeep H3) as (_ & Hdown & _ & Hsel).
  split; assumption.
Defined.

(** X11: the arrows of a [SelectInput] go round the list: inside the list
    the down arrow undoes the up arrow and the up arrow the down arrow, and
    as many presses of one arrow as the list has items return to the item
    the presses started from. *)
Theorem select_arrows_go_round (items : list jsstring) (h : Z) :
  in_range items h ->
  downArrow items (upArrow items h) = h
  /\ upArrow items (downArrow items h) = h
  /\ Nat.iter (length items) (downArrow items) h = h
  /\ Nat.iter (length items) (upArrow items) h = h.
Proof.
  intros Hh. pose proof Hh as [Hlo Hhi].
  split; [|split; [|split]].
  - rewrite downArrow_mod by (by apply upArrow_in_range).
    rewrite upArrow_mod by assumption.
    rewrite Zplus_mod_idemp_l. replace (h - 1 + 1)%Z with h by lia.
    by apply Z.mod_small.
  - rewrite upArrow_mod by (by apply downArrow_in_range).
    rewrite downArrow_mod by assumption.
    rewrite Zminus_mod_idemp_l. replace (h + 1 - 1)%Z with h by lia.
    by apply Z.mod_small.
  - rewrite iter_downArrow by assumption. fold (len items).
    rewrite <- (Z.mul_1_l (len items)) at 1.
    rewrite Z_mod_plus_full. by apply Z.mod_small.
  - rewrite iter_upArrow by assumption. fold (len items).
    replace (h - len items)%Z with (h + (-1) * len items)%Z by lia.
    rewrite Z_mod_plus_full. by apply Z.mod_small.
Qed.

Lemma select_arrows_go_round_witness :
  in_range (availableModels anthropic) 0
  /\ upArrow (availableModels anthropic) 0 = 6%Z
  /\ downArrow (availableModels anthropic) (upArrow (availableModels anthropic) 0)
     = 0%Z.
Proof.
  assert (H0 : in_range (availableModels anthropic) 0)
    by (unfold in_range; vm_compute; split; [discriminate | reflexivity]).
  split; [exact H0|]. split; [reflexivity|].
  apply (select_arrows_go_round (availableModels anthropic) 0 H0).
Defined.

(** X12: a [SelectInput] is mounted with the highlight on the current value
    when the list has it (on its first occurrence), and on the first item
    when the list has not. *)
Theorem select_starts_on_value (items : list jsstring) (value : jsstring) :
  (value ∈ items -> selectedValue items (mounted items value) = Some value)
  /\ (value ∉ items -> mounted items value = 0%Z).
Proof.
  rewrite mounted_initial. unfold initialIndex, selectedValue.
  destruct (findIndex_cases items value) as [[Hr Hnot]|[[Hlo Hhi] Hat]].
  - split; [contradiction|]. intros _. rewrite Hr. reflexivity.
  - rewrite Z.max_r by exact Hlo. split; [by intros _|].
    intros Hnot. exfalso. apply Hnot.
    unfold at_index in Hat.
    destruct (Z.ltb_spec (findIndex items value) 0); [discriminate|].
    by eapply list_elem_of_lookup_2.
Qed.

Lemma select_starts_on_value_witness :
  js "gpt-4" ∈ availableModels openai
  /\ selectedValue (availableModels openai)
       (mounted (availableModels openai) (js "gpt-4")) = Some (js "gpt-4").
Proof.
  assert (Hin : js "gpt-4" ∈ availableModels openai)
    by (apply list_elem_of_In; vm_compute; tauto).
  split; [exact Hin|].
  by apply (select_starts_on_value (availableModels openai) (js "gpt-4")).
Defined.

(** ** The chat view *)

Section ChatFacts.

Lemma trimStart_blank s : blank s -> trimStart s = [].
Proof. induction 1 as [|c r Hc _ IH]; simpl; [reflexivity|]. by rewrite Hc. Qed.

Lemma trimStart_cases s :
  (trimStart s = [] /\ blank s)
  \/ exists c r, trimStart s = c :: r /\ is_space c = false.
Proof.
  induction s as [|c r IH]; simpl.
  - left. split; [reflexivity | constructor].
  - destruct (is_space c) eqn:Hc.
    + destruct IH as [[-> Hb]|Hex]; [left | by right].
      split; [reflexivity | by constructor].
    + right. by exists c, r.
Qed.

Lemma blank_rev s : blank s -> blank (rev s).
Proof. unfold blank. intros H. by apply Forall_rev. Qed.

(** [!value.trim()] holds exactly for the strings of white space only. *)
Lemma falsy_trim s : falsy (trim s) = true <-> blank s.
Proof.
  unfold trim, trimEnd. split.
  - intros Hf.
    assert (Hnil : trimStart (rev (trimStart s)) = []).
    { destruct (rev (trimStart (rev (trimStart s)))) eqn:Hr; [|discriminate].
      apply (f_equal (@rev _)) in Hr. by rewrite rev_involutive in Hr. }
    destruct (trimStart_cases (rev (trimStart s))) as [[_ Hb]|(c & r & Hc & _)];
      [|congruence].
    apply blank_rev in Hb. rewrite rev_involutive in Hb.
    destruct (trimStart_cases s) as [[_ Hs]|(c & r & Hc & Hns)]; [exact Hs|].
    rewrite Hc in Hb. inversion Hb; congruence.
  - intros Hb. by rewrite (trimStart_blank s Hb).
Qed.

Lemma falsy_trim_false s : ~ blank s -> falsy (trim s) = false.
Proof.
  intros Hnb. destruct (falsy (trim s)) eqn:Hf; [|reflexivity].
  apply falsy_trim in Hf. contradiction.
Qed.

Lemma no_system_app (a b : list Message) :
  existsb (fun msg => bool_decide (role msg = system)) (a ++ b)
  = existsb (fun msg => bool_decide (role msg = system)) a
    || existsb (fun msg => bool_decide (role msg = system)) b.
Proof. apply existsb_app. Qed.

(** What [handleSubmit] does with a text that is not blank. *)
Lemma handleSubmit_sends invoke value c st cfg client :
  ~ blank value ->
  read_config (heap st) (getConfig st) = Some cfg ->
  read_model (heap st) (this_model (this st)) = Some client ->
  exists r,
    handleSubmit invoke value c st = Some r
    /\ messages (chat r)
       = match invoke client (handed cfg (messages c ++ [userMessage value])) with
         | Returns response =>
             (messages c ++ [userMessage value]) ++ [assistantMessage response]
         | Throws _ => messages c ++ [userMessage value]
         end
    /\ isLoading (chat r) = false
    /\ saveStatus (chat r) = saveStatus c
    /\ input (chat r) = input c
    /\ map given (calls r) = [handed cfg (messages c ++ [userMessage value])]
    /\ this (session r) = this st
    /\ read_config (heap (session r)) (getConfig st) = Some cfg
    /\ read_model (heap (session r)) (this_model (this st)) = Some client
    /\ (forall l, is_Some (heap st !! l) ->
        heap (session r) !! l = heap st !! l).
Proof.
  intros Hnb Hcfg Hclient. unfold handleSubmit.
  rewrite (falsy_trim_false value Hnb).
  destruct (send_new_array invoke (messages c ++ [userMessage value]) st cfg
              client Hcfg Hclient)
    as (s & Hsend & Hthis & Hc' & Hm' & Hframe & Hgiven & Hanswer).
  unfold alloc in *; simpl in *. rewrite Hsend. simpl.
  eexists. split; [reflexivity|]. simpl.
  split.
  { rewrite Hanswer. unfold handed.
    by destruct (invoke client _). }
  repeat split; try assumption.
Qed.

End ChatFacts.

(** X13: a message of white space only, or an empty one, goes nowhere: the
    conversation, the session and the text of the input field stay as they
    are and the provider is not called. *)
Theorem blank_message_is_ignored
    (invoke : Binding -> list BaseMessage -> outcome jsstring)
    (c : ChatState) (st : State) :
  blank (input c) ->
  submitInput invoke c st = Some {| chat := c; session := st; calls := [] |}
  /\ handleSubmit invoke (input c) c st
     = Some {| chat := c; session := st; calls := [] |}.
Proof.
  intros Hb. apply falsy_trim in Hb.
  unfold submitInput, handleSubmit. by rewrite Hb.
Qed.

Lemma blank_message_is_ignored_witness :
  blank (js "   ")
  /\ submitInput echo
       {| messages := hi_hello; isLoading := false; saveStatus := None;
          input := js "   " |} st0
     = Some {| chat := {| messages := hi_hello; isLoading := false;
                          saveStatus := None; input := js "   " |};
               session := st0; calls := [] |}.
Proof.
  assert (Hb : blank (js "   ")) by (repeat constructor).
  split; [exact Hb|].
  apply (blank_message_is_ignored echo
           {| messages := hi_hello; isLoading := false; saveStatus := None;
              input := js "   " |} st0 Hb).
Defined.

(** X14: a message that is not blank is appended to the conversation as the
    user's, with its text as typed (not trimmed), and the provider is
    called once with the conversation that ends in it; when the provider
    answers, the answer is appended as the assistant's; when it fails, the
    conversation keeps the user's message and nothing else is added. Either
    way the input field is emptied, loading is over, and the session's
    config and client are as before. *)
Theorem message_is_appended_and_sent
    (invoke : Binding -> list BaseMessage -> outcome jsstring)
    (c : ChatState) (st : State) (cfg : LLMConfig) (client : Binding) :
  ~ blank (input c) ->
  read_config (heap st) (getConfig st) = Some cfg ->
  read_model (heap st) (this_model (this st)) = Some client ->
  exists r,
    submitInput invoke c st = Some r
    /\ map given (calls r)
       = [handed cfg (messages c ++ [userMessage (input c)])]
    /\ (forall response,
          invoke client (handed cfg (messages c ++ [userMessage (input c)]))
          = Returns response ->
          messages (chat r)
          = messages c ++ [userMessage (input c); assistantMessage response])
    /\ (forall message,
          invoke client (handed cfg (messages c ++ [userMessage (input c)]))
          = Throws message ->
          messages (chat r) = messages c ++ [userMessage (input c)])
    /\ input (chat r) = []
    /\ isLoading (chat r) = false
    /\ read_config (heap (session r)) (getConfig (session r)) = Some cfg
    /\ read_model (heap (session r)) (this_model (this (session r)))
       = Some client.
Proof.
  intros Hnb Hcfg Hclient. unfold submitInput.
  rewrite (falsy_trim_false _ Hnb).
  destruct (handleSubmit_sends invoke (input c) c st cfg client Hnb Hcfg Hclient)
    as (r & Hr & Hmsgs & Hload & _ & _ & Hcalls & Hthis & Hc' & Hm' & _).
  rewrite Hr. simpl. eexists. split; [reflexivity|]. simpl.
  split; [exact Hcalls|].
  split; [intros response Hret; rewrite Hmsgs, Hret;
          by rewrite <- app_assoc|].
  split; [intros message Hthrow; by rewrite Hmsgs, Hthrow|].
  split; [reflexivity|]. split; [exact Hload|].
  unfold getConfig in *. rewrite Hthis. by split.
Qed.

Lemma message_is_appended_and_sent_witness :
  ~ blank (input chat_hi)
  /\ exists r,
       submitInput echo chat_hi st0 = Some r
       /\ messages (chat r)
          = hi_hello ++ [userMessage (js "  how are you? ");
                         assistantMessage (js "ok")]
       /\ input (chat r) = [].
Proof.
  assert (Hnb : ~ blank (input chat_hi)).
  { intros Hb. apply falsy_trim in Hb. vm_compute in Hb. discriminate. }
  split; [exact Hnb|].
  destruct (message_is_appended_and_sent echo chat_hi st0 (defaultConfig env0)
              (binding env0 (defaultConfig env0)) Hnb eq_refl eq_refl)
    as (r & Hr & _ & Hok & _ & Hin & _).
  exists r. split; [exact Hr|]. split; [|exact Hin].
  apply (Hok (js "ok")). reflexivity.
Defined.

(** ** Saving from the chat view *)

(** X15: Ctrl+S with an empty conversation touches no file and reports
    [No messages to save]; with messages and no failure it writes the
    transcript to a file named [<timestamp>-chat.<ext>] and reports
    [Chat saved to: ] and the path; when a call of the file system throws it
    reports [Error saving chat: Failed to save chat: ] and the message of
    that error. In no case does the conversation change. *)
Theorem save_shortcut_reports
    (env : ProcessEnv) (path_join : jsstring -> jsstring -> jsstring)
    (clk : Clock) (flt : Faults) (c : ChatState) (st : State) (fs : FS)
    (cfg : LLMConfig) :
  read_config (heap st) (getConfig st) = Some cfg ->
  exists c' fs',
    saveShortcut env path_join clk flt c st fs = Some (c', fs')
    /\ messages c' = messages c
    /\ (messages c = [] ->
        saveStatus c' = Some (js "No messages to save") /\ fs' = fs)
    /\ (messages c <> [] ->
        (present fs (saveDir env cfg) = true \/ mkdir_error flt = None) ->
        write_error flt = None ->
        saveStatus c'
        = Some (js "Chat saved to: " ++ filePath env path_join cfg clk None)
        /\ filename cfg clk None
           = name_stamp (iso_for_name clk) ++ js "-chat."
             ++ fileExtension (formatToUse cfg)
        /\ files fs' !! filePath env path_join cfg clk None
           = Some (fileContent cfg clk (messages c)))
    /\ (forall e,
          messages c <> [] -> fs_failure flt fs (saveDir env cfg) e ->
          saveStatus c'
          = Some (js "Error saving chat: Failed to save chat: " ++ e)).
Proof.
  intros Hcfg. unfold saveShortcut.
  destruct (messages c) as [|m ms] eqn:Hmsgs.
  - simpl. eexists _, _. split; [reflexivity|]. simpl.
    split; [reflexivity|]. split; [by split|]. split; [congruence|].
    intros e Hne. congruence.
  - cbn [length Nat.ltb Nat.leb].
    rewrite (saveChat_eq env path_join _ _ _ _ _ _ _ Hcfg). cbn [mbind option_bind].
    destruct (saveChat_with env path_join cfg clk flt (m :: ms) None fs)
      as [[savedPath|message] fs1] eqn:Hrun;
      (eexists _, _; split; [reflexivity|]); cbn [messages saveStatus];
      (split; [reflexivity|]); (split; [congruence|]); split.
    + intros _ Hdir Hwrite.
      rewrite (saveChat_with_ok env path_join cfg clk flt (m :: ms) None fs
                 Hdir Hwrite) in Hrun.
      injection Hrun as <- <-. split; [reflexivity|]. split; [reflexivity|].
      cbn [files]. by rewrite lookup_insert_eq.
    + intros e _ [[Hp Hmk]|[Hdir Hwr]].
      * rewrite (saveChat_with_mkdir_fails env path_join cfg clk flt (m :: ms)
                   None fs e Hp Hmk) in Hrun. discriminate.
      * pose proof (saveChat_with_write_fails env path_join cfg clk flt
                      (m :: ms) None fs e Hdir Hwr) as Hres.
        rewrite Hrun in Hres. discriminate.
    + intros _ Hdir Hwrite.
      rewrite (saveChat_with_ok env path_join cfg clk flt (m :: ms) None fs
                 Hdir Hwrite) in Hrun. discriminate.
    + intros e _ [[Hp Hmk]|[Hdir Hwr]].
      * rewrite (saveChat_with_mkdir_fails env path_join cfg clk flt (m :: ms)
                   None fs e Hp Hmk) in Hrun.
        injection Hrun as <- <-. reflexivity.
      * pose proof (saveChat_with_write_fails env path_join cfg clk flt
                      (m :: ms) None fs e Hdir Hwr) as Hres.
        rewrite Hrun in Hres. cbn [fst] in Hres. injection Hres as ->.
        reflexivity.
Qed.

Lemma save_shortcut_reports_witness :
  read_config (heap st0) (getConfig st0) = Some (defaultConfig env0)
  /\ fs_failure disk_full fs0 (saveDir env0 (defaultConfig env0))
       (js "ENOSPC: no space left on device, write")
  /\ exists c' fs',
       saveShortcut env0 join2 clk0 disk_full chat_hi st0 fs0 = Some (c', fs')
       /\ saveStatus c'
          = Some (js "Error saving chat: Failed to save chat: "
                  ++ js "ENOSPC: no space left on device, write").
Proof.
  split; [reflexivity|].
  assert (Hfail : fs_failure disk_full fs0 (saveDir env0 (defaultConfig env0))
                    (js "ENOSPC: no space left on device, write"))
    by (right; split; [right; reflexivity | reflexivity]).
  split; [exact Hfail|].
  destruct (save_shortcut_reports env0 join2 clk0 disk_full chat_hi st0 fs0
              (defaultConfig env0) eq_refl)
    as (c' & fs' & Hrun & _ & _ & _ & Herr).
  exists c', fs'. split; [exact Hrun|].
  apply Herr; [discriminate | exact Hfail].
Defined.

(** X16: the colour of the save status is decided by the word [Error] in
    its text: the report of a failed save is red, and the report of a save
    that succeeded is red too whenever the path of the file has [Error] in
    it, green otherwise. *)
Theorem status_colour_follows_the_word_Error (text : jsstring) :
  statusColor (js "Error saving chat: " ++ text) = red
  /\ statusColor (js "Chat saved to: " ++ text)
     = (if contains (js "Error") text then red else green)
  /\ statusColor (js "No messages to save") = green.
Proof.
  split; [reflexivity|]. split; [|reflexivity].
  unfold statusColor. reflexivity.
Qed.

(** ** [saveChat] and the files around it *)



Section NameFacts.

Lemma lower_alnum c :
  is_alnum c = true ->
  is_lower (lower_unit c) || is_digit (lower_unit c) = true.
Proof.
  unfold is_alnum, lower_unit, is_lower, is_upper, is_digit. intros H.
  repeat match goal with
    | |- context [N.leb ?a ?b] => destruct (N.leb_spec a b)
    | H : context [N.leb ?a ?b] |- _ => destruct (N.leb_spec a b)
    end; simpl in *; try reflexivity; try discriminate; lia.
Qed.

Lemma slug_units title :
  Forall (fun c => is_lower c || is_digit c || (c =? 45) = true) (slug title).
Proof.
  rewrite slug_map. apply Forall_map, Forall_forall. intros c _. simpl.
  destruct (is_alnum c) eqn:Hc.
  - by rewrite (lower_alnum c Hc).
  - reflexivity.
Qed.

End NameFacts.

(** X18: the part of the file name that comes from the title holds nothing
    but lower-case letters, digits and [-], and is as long as the title: no
    separator, dot or upper-case letter of a title reaches the name, and
    slugging a slug changes nothing. For every title, an empty one and none
    included, the name is the stamp, [-], such a part ([chat] without a
    title) and the extension of the format. *)
Theorem file_name_is_made_of_safe_units
    (c : LLMConfig) (clk : Clock) (title : option jsstring) :
  (forall t,
      length (slug t) = length t
      /\ Forall (fun u => is_lower u || is_digit u || (u =? 45) = true) (slug t)
      /\ slug (slug t) = slug t)
  /\ exists part,
       filename c clk title
       = name_stamp (iso_for_name clk) ++ js "-" ++ part ++ js "."
         ++ fileExtension (formatToUse c)
       /\ Forall (fun u => is_lower u || is_digit u || (u =? 45) = true) part
       /\ (title = None \/ title = Some [] -> part = js "chat").
Proof.
  split.
  - intros t. split; [rewrite slug_map; apply length_map|].
    split; [apply slug_units|].
    rewrite (slug_map (slug t)).
    pose proof (slug_units t) as Hu. induction Hu as [|u r Hu _ IH];
      [reflexivity|].
    simpl. rewrite IH. f_equal.
    unfold is_alnum, lower_unit, is_lower, is_upper, is_digit in *.
    repeat match goal with
      | |- context [N.leb ?a ?b] => destruct (N.leb_spec a b)
      | |- context [N.eqb ?a ?b] => destruct (N.eqb_spec a b)
      | H : context [N.leb ?a ?b] |- _ => destruct (N.leb_spec a b)
      | H : context [N.eqb ?a ?b] |- _ => destruct (N.eqb_spec a b)
      end; simpl in *; try reflexivity; try discriminate; lia.
  - unfold filename. destruct title as [[|a r]|]; cbn [truthy_str].
    + exists (js "chat"). split; [reflexivity|]. split; [|auto].
      repeat constructor.
    + exists (slug (a :: r)). split; [reflexivity|].
      split; [apply slug_units|]. intros [?|?]; discriminate.
    + exists (js "chat"). split; [reflexivity|]. split; [|auto].
      repeat constructor.
Qed.

(** ** The markdown transcript *)

Lemma reading_chatData_messages c clk messages :
  mbind messages_of (get (js "messages") (reading (chatData c clk messages)))
  = Some messages.
Proof.
  change (get (js "messages") (reading (chatData c clk messages)))
    with (Some (JArray (map reading (map messageValue messages)))).
  apply messages_of_values.
Qed.

(** X19: the markdown encoding writes the content of a message as it is, so
    the file does not tell where a message ends: a single message whose
    text holds the rule and a heading gives the very file of two messages.
    Nothing of the kind happens with the json encoding, whose text reads
    back as the conversation. *)
Theorem markdown_transcript_is_ambiguous
    (c : LLMConfig) (clk : Clock) (before after : list Message)
    (a b : jsstring) :
  let one :=
    [{| role := user;
        content := a ++ nl ++ nl ++ js "---" ++ nl ++ nl ++ js "## Assistant"
                   ++ nl ++ nl ++ b |}] in
  let two :=
    [{| role := user; content := a |}; {| role := assistant; content := b |}] in
  before ++ one ++ after <> before ++ two ++ after
  /\ markdownContent c clk (before ++ one ++ after)
     = markdownContent c clk (before ++ two ++ after)
  /\ JSON_stringify (chatData c clk (before ++ one ++ after))
     <> JSON_stringify (chatData c clk (before ++ two ++ after)).
Proof.
  intros one two.
  assert (Hne : before ++ one ++ after <> before ++ two ++ after).
  { intros Heq. apply app_inv_head in Heq.
    apply (f_equal (@length Message)) in Heq.
    rewrite !length_app in Heq. simpl in Heq. lia. }
  split; [exact Hne|]. split.
  - unfold markdownContent. rewrite !fold_sections. f_equal.
    rewrite !map_app, !concat_app. f_equal. f_equal.
    subst one two. cbn [map concat markdownSection role content].
    rewrite <- !app_assoc. reflexivity.
  - intros Heq. apply Hne.
    pose proof (JSON_parse_stringify (chatData c clk (before ++ one ++ after)))
      as H1.
    pose proof (JSON_parse_stringify (chatData c clk (before ++ two ++ after)))
      as H2.
    rewrite Heq, H2 in H1.
    assert (H3 : reading (chatData c clk (before ++ two ++ after))
                 = reading (chatData c clk (before ++ one ++ after)))
      by congruence.
    apply (f_equal (fun v => mbind messages_of (get (js "messages") v))) in H3.
    rewrite !reading_chatData_messages in H3. congruence.
Qed.

(** ** Numbers that the settings form lets through *)

Section RangeFacts.

Lemma clone_twice_finite s m e :
  clone_num (clone_num (Num (or_num (S754_finite s m e) num_0_7)))
  = Num (S754_finite s m e)
  /\ clone_num (clone_num (Num (or_num (S754_finite s m e) num_1000)))
     = Num (S754_finite s m e).
Proof. split; reflexivity. Qed.

Lemma clone_twice_infinity s d :
  clone_num (clone_num (Num (or_num (S754_infinity s) d))) = Null.
Proof. reflexivity. Qed.

Lemma openPanel_None toString c :
  openPanel toString c = None <-> temperature c = Null \/ maxTokens c = Null.
Proof.
  unfold openPanel, initialForm, field_text.
  destruct (temperature c), (maxTokens c); simpl; split;
    intros H; try discriminate; try reflexivity; auto;
    destruct H; discriminate.
Qed.

Lemma numbers_stored env f st cur :
  read_config (heap st) (getConfig st) = Some cur ->
  exists st' c,
    saveSettings env f st = Some st'
    /\ read_config (heap st') (getConfig st') = Some c
    /\ temperature c
       = clone_num (clone_num (Num (or_num (parseFloat (f_temperature f))
                                      num_0_7)))
    /\ maxTokens c
       = clone_num (clone_num (Num (or_num (parseInt (f_maxTokens f))
                                      num_1000))).
Proof.
  intros Hcur.
  destruct (saveSettings_total env f st cur Hcur) as (st' & Hsave & Hread & _).
  eexists st', _. split; [exact Hsave|]. split; [exact Hread|].
  split; reflexivity.
Qed.

End RangeFacts.

(** X20: the form checks no range. Whatever finite number other than zero
    the temperature text starts with, a negative or a huge one included,
    is the temperature of the config after a save, and whatever such whole
    number the maxTokens text starts with is its maxTokens; when the text
    reads as an infinity the config is left with [null] in that place. *)
Theorem numbers_are_stored_without_a_range_check
    (env : ProcessEnv) (f : Form) (st : State) (cur : LLMConfig) :
  read_config (heap st) (getConfig st) = Some cur ->
  exists st' c,
    saveSettings env f st = Some st'
    /\ read_config (heap st') (getConfig st') = Some c
    /\ (forall s m e, parseFloat (f_temperature f) = S754_finite s m e ->
        temperature c = Num (S754_finite s m e))
    /\ (forall s, parseFloat (f_temperature f) = S754_infinity s ->
        temperature c = Null)
    /\ (forall s m e, parseInt (f_maxTokens f) = S754_finite s m e ->
        maxTokens c = Num (S754_finite s m e))
    /\ (forall s, parseInt (f_maxTokens f) = S754_infinity s ->
        maxTokens c = Null).
Proof.
  intros Hcur.
  destruct (numbers_stored env f st cur Hcur)
    as (st' & c & Hsave & Hread & Ht & Hm).
  exists st', c. split; [exact Hsave|]. split; [exact Hread|].
  split; [|split; [|split]].
  - intros s m e Hp. rewrite Ht, Hp. apply clone_twice_finite.
  - intros s Hp. rewrite Ht, Hp. apply clone_twice_infinity.
  - intros s m e Hp. rewrite Hm, Hp. apply clone_twice_finite.
  - intros s Hp. rewrite Hm, Hp. apply clone_twice_infinity.
Qed.

Lemma numbers_are_stored_without_a_range_check_witness :
  read_config (heap st0) (getConfig st0) = Some (defaultConfig env0)
  /\ exists st' c,
       saveSettings env0 (form0 (js "-5") (js "-1")) st0 = Some st'
       /\ read_config (heap st') (getConfig st') = Some c
       /\ temperature c = Num (parseFloat (js "-5"))
       /\ temperature c = Num (S754_finite true 5629499534213120 (-50))
       /\ maxTokens c = Num (parseInt (js "-1")).
Proof.
  split; [reflexivity|].
  destruct (numbers_are_stored_without_a_range_check env0
              (form0 (js "-5") (js "-1")) st0 (defaultConfig env0)
              eq_refl)
    as (st' & c & Hsave & Hread & Ht & _ & Hm & _).
  exists st', c. split; [exact Hsave|]. split; [exact Hread|].
  split; [exact (Ht true 5629499534213120%positive (-50)%Z eq_refl)|].
  split; [exact (Ht true 5629499534213120%positive (-50)%Z eq_refl)|].
  exact (Hm true 4503599627370496%positive (-52)%Z eq_refl).
Defined.

(** X21: once a save of the form has left [null] for a number, which a
    temperature text reading as an infinity does, the settings view cannot
    be mounted any more: its first render calls [toString] on that [null],
    so Tab in the chat view throws. *)
Theorem infinite_number_locks_the_settings
    (env : ProcessEnv) (path_join : jsstring -> jsstring -> jsstring)
    (toString : number -> jsstring) (f : Form) (st : State) (cur : LLMConfig)
    (c : ChatState) (fs : FS) :
  read_config (heap st) (getConfig st) = Some cur ->
  (exists s, parseFloat (f_temperature f) = S754_infinity s)
  \/ (exists s, parseInt (f_maxTokens f) = S754_infinity s) ->
  exists st',
    saveSettings env f st = Some st'
    /\ openSettings toString st' = None
    /\ handle env path_join toString KeyTab
         {| screen := ChatView c; service := st'; disk := fs |} = None.
Proof.
  intros Hcur Hinf.
  destruct (numbers_stored env f st cur Hcur)
    as (st' & c' & Hsave & Hread & Ht & Hm).
  exists st'. split; [exact Hsave|].
  assert (Hopen : openSettings toString st' = None).
  { unfold openSettings. rewrite Hread. simpl. apply openPanel_None.
    destruct Hinf as [[s Hs]|[s Hs]]; [left|right].
    - rewrite Ht, Hs. reflexivity.
    - rewrite Hm, Hs. reflexivity. }
  split; [exact Hopen|].
  unfold handle. cbn [screen service]. rewrite Hopen. reflexivity.
Qed.

Lemma infinite_number_locks_the_settings_witness :
  read_config (heap st0) (getConfig st0) = Some (defaultConfig env0)
  /\ parseFloat (js "Infinity") = S754_infinity false
  /\ exists st',
       saveSettings env0 (form0 (js "Infinity") (js "1000")) st0 = Some st'
       /\ handle env0 join2 show0 KeyTab
            {| screen := ChatView chat_hi; service := st'; disk := fs0 |}
          = None.
Proof.
  split; [reflexivity|]. split; [reflexivity|].
  destruct (infinite_number_locks_the_settings env0 join2 show0
              (form0 (js "Infinity") (js "1000")) st0 (defaultConfig env0)
              chat_hi fs0 eq_refl
              (or_introl (ex_intro _ false eq_refl)))
    as (st' & Hsave & _ & Htab).
  by exists st'.
Defined.

(** ** The two views together *)

Section ReachFacts.

Variable env : ProcessEnv.
Variable path_join : jsstring -> jsstring -> jsstring.
Variable toString : number -> jsstring.

Lemma includes_elem_of l x : includes l x = true <-> x ∈ l.
Proof.
  unfold includes. rewrite existsb_exists. split.
  - intros (y & Hin & Heq). apply eqb_true in Heq. subst y.
    by apply list_elem_of_In.
  - intros Hin. exists x. split; [by apply list_elem_of_In|].
    by apply eqb_true.
Qed.

Lemma recognised_toggle s : recognised (toggleFormat s).
Proof.
  unfold recognised, toggleFormat. destruct (JSString.eqb s (js "json")); auto.
Qed.

Lemma toggle_twice s : recognised s -> toggleFormat (toggleFormat s) = s.
Proof. intros [->| ->]; reflexivity. Qed.

Lemma providerEffect_rest f :
  f_saveFormat (providerEffect f) = f_saveFormat f
  /\ f_apiKey (providerEffect f) = f_apiKey f
  /\ f_temperature (providerEffect f) = f_temperature f
  /\ f_maxTokens (providerEffect f) = f_maxTokens f
  /\ f_systemPrompt (providerEffect f) = f_systemPrompt f.
Proof.
  unfold providerEffect. destruct (negb _); [|done].
  destruct (availableModels (f_provider f)); done.
Qed.

Lemma provider_of_name_listed v :
  v ∈ providers -> exists p, provider_of_name v = Some p.
Proof.
  unfold providers. intros Hin.
  apply elem_of_cons in Hin as [->|Hin]; [by exists anthropic|].
  apply elem_of_cons in Hin as [->|Hin]; [by exists openai|].
  by apply elem_of_nil in Hin.
Qed.

Lemma no_system_Forall (ms : list Message) :
  Forall (fun msg => role msg <> system) ms ->
  existsb (fun msg => bool_decide (role msg = system)) ms = false.
Proof.
  induction 1 as [|m r Hm _ IH]; [reflexivity|]. simpl.
  by rewrite bool_decide_eq_false_2.
Qed.

Lemma availableModels_nonempty p : availableModels p <> [].
Proof. destruct (availableModels_first p) as (a & r & ->). discriminate. Qed.

Lemma set_or_null_clone x d :
  truthy d = true -> set_or_null (clone_num (clone_num (Num (or_num x d)))).
Proof.
  unfold or_num. intros Hd. destruct x; simpl; try exact I;
    destruct d; simpl; try exact I; discriminate.
Qed.

Lemma or_undefined_nonempty s : or_undefined s <> Some [].
Proof. destruct s; discriminate. Qed.

(** A save of a form whose model is listed and whose format is one of the
    two leaves a tidy config. *)
Lemma tidy_saved f cur :
  includes (availableModels (f_provider f)) (f_model f) = true ->
  recognised (f_saveFormat f) ->
  tidy cur ->
  tidy (clone_config (merge cur (as_partial (clone_config (newConfig f cur))))).
Proof.
  intros Hlisted Hfmt (_ & _ & _ & _ & Hkey & Hprompt).
  unfold tidy. simpl.
  split; [exact Hlisted|]. split; [by eexists|].
  split; [by apply set_or_null_clone|]. split; [by apply set_or_null_clone|].
  split.
  - destruct (or_undefined (f_apiKey f)) eqn:Hk; [|exact Hkey].
    rewrite <- Hk. apply or_undefined_nonempty.
  - destruct (f_systemPrompt f) as [|u r]; [exact Hprompt|].
    by exists (u :: r).
Qed.

Lemma tidy_default : tidy (defaultConfig env).
Proof.
  unfold tidy. simpl. split; [reflexivity|].
  split.
  { eexists. split; [reflexivity|]. unfold recognised.
    destruct (bool_decide _); auto. }
  split; [exact I|]. split; [exact I|]. split; [discriminate|].
  by eexists.
Qed.

(** What a save does to a sound session. *)
Lemma save_sound f st :
  includes (availableModels (f_provider f)) (f_model f) = true ->
  recognised (f_saveFormat f) ->
  in_sync env st ->
  (exists c, read_config (heap st) (getConfig st) = Some c /\ tidy c) ->
  exists st',
    saveSettings env f st = Some st'
    /\ in_sync env st'
    /\ (exists c, read_config (heap st') (getConfig st') = Some c /\ tidy c).
Proof.
  intros Hlisted Hfmt _ (c & Hc & Htidy).
  destruct (saveSettings_total env f st c Hc) as (st' & Hsave & Hc' & Hm').
  exists st'. split; [exact Hsave|]. split.
  - eexists. split; eassumption.
  - eexists. split; [exact Hc'|]. by apply tidy_saved.
Qed.

Lemma saveShortcut_total clk flt c st fs cfg :
  read_config (heap st) (getConfig st) = Some cfg ->
  exists c' fs',
    saveShortcut env path_join clk flt c st fs = Some (c', fs')
    /\ messages c' = messages c /\ isLoading c' = isLoading c
    /\ input c' = input c.
Proof.
  intros Hcfg. unfold saveShortcut.
  destruct (0 <? length (messages c))%nat.
  - rewrite (saveChat_eq env path_join _ _ _ _ _ _ _ Hcfg).
    cbn [mbind option_bind].
    destruct (saveChat_with env path_join cfg clk flt (messages c) None fs)
      as [[savedPath|message] fs1]; by eexists _, _.
  - by eexists _, _.
Qed.

Lemma submitInput_total invoke c st cfg client :
  read_config (heap st) (getConfig st) = Some cfg ->
  read_model (heap st) (this_model (this st)) = Some client ->
  chat_ok c ->
  exists r,
    submitInput invoke c st = Some r
    /\ chat_ok (chat r)
    /\ read_config (heap (session r)) (getConfig (session r)) = Some cfg
    /\ read_model (heap (session r)) (this_model (this (session r)))
       = Some client.
Proof.
  intros Hcfg Hclient [Hroles Hload]. unfold submitInput.
  destruct (falsy (trim (input c))) eqn:Hf.
  - eexists. split; [reflexivity|]. simpl. by repeat split.
  - assert (Hnb : ~ blank (input c)).
    { intros Hb. apply falsy_trim in Hb. congruence. }
    destruct (handleSubmit_sends invoke (input c) c st cfg client Hnb Hcfg
                Hclient)
      as (r & Hr & Hmsgs & Hl & _ & _ & _ & Hthis & Hc' & Hm' & _).
    rewrite Hr. simpl. eexists. split; [reflexivity|]. simpl.
    split; [split; [|exact Hl]|].
    + rewrite Hmsgs.
      destruct (invoke client _); cbn [messages]; rewrite ?Forall_app;
        repeat split; try exact Hroles; repeat constructor; discriminate.
    + unfold getConfig in *. rewrite Hthis. by split.
Qed.

Lemma openPanel_ok c p :
  tidy c -> openPanel toString c = Some p -> panel_ok p.
Proof.
  intros (_ & (s & Hs & Hrec) & _) Hopen. unfold openPanel in Hopen.
  destruct (initialForm toString c) as [f|]; [|discriminate].
  simpl in Hopen. injection Hopen as <-. unfold panel_ok. simpl.
  split; [apply providerEffect_listed|].
  split; [rewrite Hs; destruct Hrec as [->| ->]; [by left|by right]|].
  by apply mounted_in_range.
Qed.

(** Every key leaves a sound world sound. *)
Lemma handle_sound e w w' :
  sound env w -> handle env path_join toString e w = Some w' -> sound env w'.
Proof.
  intros (Hsync & Htidy & Hscreen) Hstep.
  pose proof Hsync as (c0 & Hc0 & Hm0).
  unfold handle in Hstep. destruct (screen w) as [c|p] eqn:Hscr.
  - destruct e as [|invoke|up|text|clk flt].
    + destruct Htidy as (c1 & Hc1 & Ht1).
      unfold openSettings in Hstep. rewrite Hc1 in Hstep. simpl in Hstep.
      destruct (openPanel toString c1) as [p|] eqn:Hopen; [|discriminate].
      injection Hstep as <-. split; [exact Hsync|].
      split; [by exists c1|]. simpl. by eapply openPanel_ok.
    + destruct (submitInput_total invoke c (service w) c0 _ Hc0 Hm0 Hscreen)
        as (r & Hr & Hchat & Hc' & Hm').
      rewrite Hr in Hstep. injection Hstep as <-.
      destruct Htidy as (c1 & Hc1 & Ht1).
      assert (c1 = c0) as -> by congruence.
      split; [by exists c0|]. split; [by exists c0|]. exact Hchat.
    + injection Hstep as <-. split; [exact Hsync|]. split; [exact Htidy|].
      by rewrite Hscr.
    + injection Hstep as <-. split; [exact Hsync|]. split; [exact Htidy|].
      simpl. destruct Hscreen. by split.
    + destruct (saveShortcut_total clk flt c (service w) (disk w) c0 Hc0)
        as (c' & fs' & Hrun & Hmsgs & Hload & _).
      rewrite Hrun in Hstep. injection Hstep as <-.
      split; [exact Hsync|]. split; [exact Htidy|]. simpl.
      destruct Hscreen as [Hroles Hl]. split; congruence.
  - destruct Hscreen as (Hlisted & Hfmt & Hindex).
    destruct e as [|invoke|up|text|clk flt].
    + unfold onTab in Hstep.
      destruct (currentField p);
        try (injection Hstep as <-; split; [exact Hsync|];
             split; [exact Htidy|]; by split).
      destruct (save_sound (form p) (service w) Hlisted Hfmt Hsync Htidy)
        as (st' & Hsave & Hsync' & Htidy').
      rewrite Hsave in Hstep. injection Hstep as <-.
      split; [exact Hsync'|]. split; [exact Htidy'|]. by split.
    + unfold onReturn in Hstep.
      destruct (currentField p) eqn:Hfld.
      * destruct (selectedValue_in_range providers (highlightedIndex p) Hindex)
          as (v & Hv & Hin).
        destruct (provider_of_name_listed v Hin) as (chosen & Hchosen).
        rewrite Hv in Hstep. simpl in Hstep. rewrite Hchosen in Hstep.
        injection Hstep as <-. split; [exact Hsync|]. split; [exact Htidy|].
        unfold panel_ok. simpl.
        split; [apply providerEffect_listed|].
        split; [by rewrite (proj1 (providerEffect_rest _))|].
        apply valueEffect_in_range, mounted_in_range,
          availableModels_nonempty.
      * destruct (selectedValue_in_range _ (highlightedIndex p) Hindex)
          as (v & Hv & Hin).
        rewrite Hv in Hstep. injection Hstep as <-.
        split; [exact Hsync|]. split; [exact Htidy|].
        unfold panel_ok. simpl. split; [by apply includes_elem_of|]. by split.
      * injection Hstep as <-. split; [exact Hsync|]. split; [exact Htidy|].
        by split.
      * injection Hstep as <-. split; [exact Hsync|]. split; [exact Htidy|].
        by split.
      * injection Hstep as <-. split; [exact Hsync|]. split; [exact Htidy|].
        by split.
      * injection Hstep as <-. split; [exact Hsync|]. split; [exact Htidy|].
        by split.
      * destruct (save_sound (form p) (service w) Hlisted Hfmt Hsync Htidy)
          as (st1 & Hsave1 & Hsync1 & Htidy1).
        destruct (save_sound (form p) st1 Hlisted Hfmt Hsync1 Htidy1)
          as (st2 & Hsave2 & Hsync2 & Htidy2).
        rewrite Hsave1 in Hstep. simpl in Hstep. rewrite Hsave2 in Hstep.
        injection Hstep as <-. split; [exact Hsync2|]. split; [exact Htidy2|].
        by split.
    + injection Hstep as <-. split; [exact Hsync|]. split; [exact Htidy|].
      simpl. unfold onArrow, panel_ok.
      destruct (currentField p) eqn:Hfld; simpl; rewrite ?Hfld;
        try (split; [exact Hlisted|]; split; [exact Hfmt|]; exact I).
      * split; [exact Hlisted|]. split; [exact Hfmt|].
        destruct up; [by apply upArrow_in_range|by apply downArrow_in_range].
      * split; [exact Hlisted|]. split; [exact Hfmt|].
        destruct up; [by apply upArrow_in_range|by apply downArrow_in_range].
      * split; [exact Hlisted|]. split; [apply recognised_toggle|exact I].
    + injection Hstep as <-. split; [exact Hsync|]. split; [exact Htidy|].
      simpl. unfold onChangeText, panel_ok.
      destruct (currentField p) eqn:Hfld; simpl; rewrite ?Hfld;
        (split; [exact Hlisted|]); (split; [exact Hfmt|]);
        first [exact I | exact Hindex].
    + injection Hstep as <-. split; [exact Hsync|]. split; [exact Htidy|].
      rewrite Hscr. by split.
Qed.

Lemma handle_all_sound es w w' :
  sound env w -> handle_all env path_join toString es w = Some w' ->
  sound env w'.
Proof.
  revert w. induction es as [|e es IH]; intros w Hw Hrun; simpl in Hrun.
  - by injection Hrun as <-.
  - destruct (handle env path_join toString e w) as [w1|] eqn:Hstep;
      [|discriminate].
    simpl in Hrun. eapply IH; [|exact Hrun]. by eapply handle_sound.
Qed.

Lemma boot_sound st fs :
  start env = Some st -> sound env (boot st fs).
Proof.
  intros Hstart. destruct (start_ok env) as (st' & Hst' & Hc & Hm).
  assert (st' = st) as -> by congruence.
  split; [by eexists|]. split.
  - eexists. split; [exact Hc|]. apply tidy_default.
  - split; [constructor|reflexivity].
Qed.


End ReachFacts.

(** X22: whatever keys are pressed from the start of the program, as long
    as none of them throws: the session's client is the one its config
    asks for, the model of the config is one of its provider's models, its
    save format is [json] or [markdown], its two numbers are finite and not
    zero or else [null], it has a system prompt that is not empty and no
    empty API key; the conversation on screen holds no system message; and
    a select of the settings view points at one of its items. *)
Theorem keys_keep_the_program_sound
    (env : ProcessEnv) (path_join : jsstring -> jsstring -> jsstring)
    (toString : number -> jsstring) (es : list App.Event)
    (st : State) (fs : FS) (w : World) :
  start env = Some st ->
  handle_all env path_join toString es (boot st fs) = Some w ->
  sound env w.
Proof.
  intros Hstart Hrun.
  eapply handle_all_sound; [|exact Hrun]. by apply boot_sound.
Qed.

Lemma keys_keep_the_program_sound_witness :
  start env0 = Some st0
  /\ exists w,
       handle_all env0 join2 show0
         [KeyTab; KeyArrow false; KeyReturn echo; KeyArrow true] (boot st0 fs0)
       = Some w
       /\ sound env0 w.
Proof.
  split; [exact start_env0|].
  eexists. split; [vm_compute; reflexivity|].
  apply (keys_keep_the_program_sound env0 join2 show0
           [KeyTab; KeyArrow false; KeyReturn echo; KeyArrow true] st0 fs0);
    [exact start_env0 | vm_compute; reflexivity].
Defined.



(** X24: Tab always changes the view. From the chat view it mounts the
    settings with the focus on the provider; from the settings view it goes
    back to a chat view that starts anew, and it saves the form only when
    the focus is on the format field. So a visit to the settings, Tab and
    Tab again, drops the conversation that was on screen and changes
    nothing else. *)
Theorem tab_changes_the_view
    (env : ProcessEnv) (path_join : jsstring -> jsstring -> jsstring)
    (toString : number -> jsstring) (c : ChatState) (p : Panel)
    (st : State) (fs : FS) (cfg : LLMConfig) :
  read_config (heap st) (getConfig st) = Some cfg ->
  (exists st',
      handle env path_join toString KeyTab
        {| screen := SettingsView p; service := st; disk := fs |}
      = Some {| screen := ChatView initialChat; service := st'; disk := fs |}
      /\ (currentField p <> saveFormat_field -> st' = st)
      /\ (currentField p = saveFormat_field ->
          saveSettings env (form p) st = Some st'))
  /\ (temperature cfg <> Null -> maxTokens cfg <> Null ->
      (exists p',
          handle env path_join toString KeyTab
            {| screen := ChatView c; service := st; disk := fs |}
          = Some {| screen := SettingsView p'; service := st; disk := fs |}
          /\ currentField p' = provider_field)
      /\ handle_all env path_join toString [KeyTab; KeyTab]
           {| screen := ChatView c; service := st; disk := fs |}
         = Some {| screen := ChatView initialChat; service := st;
                   disk := fs |}).
Proof.
  intros Hcfg. split.
  - unfold handle, onTab. cbn [screen service disk].
    destruct (currentField p) eqn:Hfld;
      try (exists st; split; [reflexivity|]; split; [done|discriminate]).
    destruct (saveSettings_total env (form p) st cfg Hcfg)
      as (st' & Hsave & _).
    exists st'. rewrite Hsave. split; [reflexivity|]. split; [congruence|done].
  - intros Ht Hm.
    destruct (openPanel toString cfg) as [p'|] eqn:Hopen.
    2: { apply openPanel_None in Hopen. tauto. }
    assert (Hfld : currentField p' = provider_field).
    { unfold openPanel in Hopen.
      destruct (initialForm toString cfg); [|discriminate].
      simpl in Hopen. by injection Hopen as <-. }
    assert (Hone : handle env path_join toString KeyTab
                     {| screen := ChatView c; service := st; disk := fs |}
                   = Some {| screen := SettingsView p'; service := st;
                             disk := fs |}).
    { unfold handle, openSettings. cbn [screen service disk].
      rewrite Hcfg. simpl. by rewrite Hopen. }
    split; [by exists p'|].
    cbn [handle_all]. rewrite Hone. cbn [mbind option_bind].
    unfold handle, onTab. cbn [screen service disk]. rewrite Hfld.
    reflexivity.
Qed.

Lemma tab_changes_the_view_witness :
  read_config (heap st0) (getConfig st0) = Some (defaultConfig env0)
  /\ handle_all env0 join2 show0 [KeyTab; KeyTab]
       {| screen := ChatView chat_hi; service := st0; disk := fs0 |}
     = Some {| screen := ChatView initialChat; service := st0; disk := fs0 |}.
Proof.
  split; [reflexivity|].
  apply (tab_changes_the_view env0 join2 show0 chat_hi
           (panel0 provider_field 0) st0 fs0 (defaultConfig env0) eq_refl);
    discriminate.
Defined.

(** X25: each view keeps to its part. No key pressed in the chat view
    changes the config or the client of the session; no key pressed in the
    settings view touches the disk, and the session changes there only by
    Tab or Enter with the focus on the format field. *)
Theorem views_keep_to_their_part
    (env : ProcessEnv) (path_join : jsstring -> jsstring -> jsstring)
    (toString : number -> jsstring) (e : App.Event) (w w' : World) :
  handle env path_join toString e w = Some w' ->
  match screen w with
  | ChatView _ =>
      forall cfg client,
        read_config (heap (service w)) (getConfig (service w)) = Some cfg ->
        read_model (heap (service w)) (this_model (this (service w)))
        = Some client ->
        read_config (heap (service w')) (getConfig (service w')) = Some cfg
        /\ read_model (heap (service w')) (this_model (this (service w')))
           = Some client
  | SettingsView p =>
      disk w' = disk w
      /\ (currentField p <> saveFormat_field
          \/ (e <> KeyTab /\ forall invoke, e <> KeyReturn invoke) ->
          service w' = service w)
  end.
Proof.
  intros Hstep. unfold handle in Hstep.
  destruct (screen w) as [c|p] eqn:Hscr.
  - intros cfg client Hcfg Hclient.
    destruct e as [|invoke|up|text|clk flt].
    + destruct (openSettings toString (service w)); [|discriminate].
      by injection Hstep as <-.
    + unfold submitInput in Hstep.
      destruct (falsy (trim (input c))) eqn:Hf.
      * by injection Hstep as <-.
      * assert (Hnb : ~ blank (input c)).
        { intros Hb. apply falsy_trim in Hb. congruence. }
        destruct (handleSubmit_sends invoke (input c) c (service w) cfg client
                    Hnb Hcfg Hclient)
          as (r & Hr & _ & _ & _ & _ & _ & Hthis & Hc' & Hm' & _).
        rewrite Hr in Hstep. injection Hstep as <-. simpl.
        unfold getConfig in *. rewrite Hthis. by split.
    + by injection Hstep as <-.
    + by injection Hstep as <-.
    + destruct (saveShortcut env path_join clk flt c (service w) (disk w));
        [|discriminate].
      by injection Hstep as <-.
  - destruct e as [|invoke|up|text|clk flt].
    + unfold onTab in Hstep.
      destruct (currentField p) eqn:Hfld;
        try (injection Hstep as <-; by split).
      destruct (saveSettings env (form p) (service w)); [|discriminate].
      injection Hstep as <-. split; [reflexivity|].
      intros [Hne|[Hne _]]; congruence.
    + unfold onReturn in Hstep.
      destruct (currentField p) eqn:Hfld;
        try (injection Hstep as <-; by split).
      * destruct (selectedValue providers (highlightedIndex p)) as [v|];
          [|discriminate].
        simpl in Hstep.
        destruct (provider_of_name v); [|discriminate].
        injection Hstep as <-. by split.
      * destruct (selectedValue _ (highlightedIndex p)); [|discriminate].
        injection Hstep as <-. by split.
      * destruct (saveSettings env (form p) (service w)) as [st1|];
          [|discriminate].
        simpl in Hstep.
        destruct (saveSettings env (form p) st1); [|discriminate].
        injection Hstep as <-. split; [reflexivity|].
        intros [Hne|[_ Hne]]; [congruence|]. by destruct (Hne invoke).
    + injection Hstep as <-. by split.
    + injection Hstep as <-. by split.
    + injection Hstep as <-. by split.
Qed.

Lemma views_keep_to_their_part_witness :
  exists w',
    handle env0 join2 show0 (KeyReturn echo)
      {| screen := SettingsView (panel0 provider_field 1); service := st0;
         disk := fs0 |}
    = Some w'
    /\ screen w'
       = SettingsView
           {| form := chooseProvider openai (form0 (js "0.7") (js "1000"));
              currentField := model_field; highlightedIndex := 0 |}
    /\ disk w' = fs0
    /\ service w' = st0.
Proof.
  eexists.
  assert (Hstep :
    handle env0 join2 show0 (KeyReturn echo)
      {| screen := SettingsView (panel0 provider_field 1); service := st0;
         disk := fs0 |}
    = Some {| screen :=
                SettingsView
                  {| form := chooseProvider openai
                               (form0 (js "0.7") (js "1000"));
                     currentField := model_field; highlightedIndex := 0 |};
              service := st0; disk := fs0 |}) by reflexivity.
  split; [exact Hstep|]. split; [reflexivity|].
  destruct (views_keep_to_their_part env0 join2 show0 _ _ _ Hstep)
    as [Hdisk Hsession].
  split; [exact Hdisk|].
  apply Hsession. left. discriminate.
Defined.

(** X26: every request that the chat view sends, in a program run from its
    start, begins with the system prompt of the config, which is never
    empty, followed by the conversation and the new message: the
    conversation holds no system message of its own, so the prompt is
    there once. *)
Theorem requests_start_with_the_system_prompt
    (env : ProcessEnv) (path_join : jsstring -> jsstring -> jsstring)
    (toString : number -> jsstring)
    (invoke : Binding -> list BaseMessage -> outcome jsstring)
    (es : list App.Event) (st : State) (fs : FS) (w : World) (c : ChatState) :
  start env = Some st ->
  handle_all env path_join toString es (boot st fs) = Some w ->
  screen w = ChatView c ->
  ~ blank (input c) ->
  exists cfg prompt r,
    read_config (heap (service w)) (getConfig (service w)) = Some cfg
    /\ systemPrompt cfg = Some prompt
    /\ prompt <> []
    /\ submitInput invoke c (service w) = Some r
    /\ map given (calls r)
       = [SystemMessage prompt
          :: convertToLangChainMessages
               (messages c ++ [userMessage (input c)])]
    /\ Forall (fun msg => role msg <> system) (messages (chat r)).
Proof.
  intros Hstart Hrun Hscr Hnb.
  assert (Hsound : sound env w).
  { eapply handle_all_sound; [|exact Hrun]. by apply boot_sound. }
  destruct Hsound as ((c0 & Hc0 & Hm0) & (c1 & Hc1 & Htidy) & Hchat).
  assert (c1 = c0) as -> by congruence.
  rewrite Hscr in Hchat.
  destruct Htidy as (_ & _ & _ & _ & _ & (prompt & Hprompt & Hne)).
  destruct (submitInput_total invoke c (service w) c0 _ Hc0 Hm0 Hchat)
    as (r & Hr & [Hroles _] & _).
  exists c0, prompt, r. split; [exact Hc0|]. split; [exact Hprompt|].
  split; [exact Hne|]. split; [exact Hr|]. split; [|exact Hroles].
  unfold submitInput in Hr. rewrite (falsy_trim_false _ Hnb) in Hr.
  destruct (handleSubmit_sends invoke (input c) c (service w) c0 _ Hnb Hc0 Hm0)
    as (r' & Hr' & _ & _ & _ & _ & Hcalls & _).
  rewrite Hr' in Hr. injection Hr as <-. cbn [calls]. rewrite Hcalls.
  unfold handed. rewrite Hprompt.
  destruct Hchat as [Hno _].
  assert (Hnone :
    existsb (fun msg => bool_decide (role msg = system))
      (messages c ++ [userMessage (input c)]) = false).
  { rewrite no_system_app. simpl. rewrite orb_false_r.
    by apply no_system_Forall. }
  rewrite Hnone. destruct prompt; [congruence|]. reflexivity.
Qed.

Lemma requests_start_with_the_system_prompt_witness :
  start env0 = Some st0
  /\ exists r,
       submitInput echo
         {| messages := []; isLoading := false; saveStatus := None;
            input := js "hi" |} st0 = Some r
       /\ map given (calls r)
          = [[SystemMessage (js "You are a helpful AI assistant.");
              HumanMessage (js "hi")]].
Proof.
  split; [exact start_env0|].
  assert (Hnb : ~ blank (js "hi")).
  { intros Hb. apply Forall_inv in Hb. vm_compute in Hb. discriminate. }
  destruct (requests_start_with_the_system_prompt env0 join2 show0 echo
              [TextChanged (js "hi")] st0 fs0 _ _ start_env0 eq_refl eq_refl
              Hnb)
    as (cfg & prompt & r & Hcfg & Hprompt & _ & Hr & Hcalls & _).
  exists r. split; [exact Hr|].
  assert (Hdefault : Some cfg = Some (defaultConfig env0))
    by (rewrite <- Hcfg; reflexivity).
  injection Hdefault as ->.
  assert (Hsame : Some prompt = Some (js "You are a helpful AI assistant."))
    by (rewrite <- Hprompt; reflexivity).
  injection Hsame as ->.
  exact Hcalls.
Defined.

(** X27: on the format field both arrows do the same: they switch between
    [json] and [markdown], so two presses bring the format back; whatever
    the field held, after one press it holds one of the two. Nothing else
    of the form moves. *)
Theorem format_arrows_toggle (p : Panel) (up up' : bool) :
  currentField p = saveFormat_field ->
  recognised (f_saveFormat (form (onArrow up p)))
  /\ onArrow up p = onArrow (negb up) p
  /\ setSaveFormat (f_saveFormat (form p)) (form (onArrow up p)) = form p
  /\ (recognised (f_saveFormat (form p)) ->
      f_saveFormat (form (onArrow up p)) <> f_saveFormat (form p)
      /\ onArrow up' (onArrow up p) = p).
Proof.
  intros Hfld. destruct p as [[pr mo ak te mt sp sf] fld h].
  cbn [currentField] in Hfld. subst fld. unfold onArrow, setSaveFormat.
  cbn [form currentField highlightedIndex f_provider f_model f_apiKey
       f_temperature f_maxTokens f_systemPrompt f_saveFormat].
  split; [apply recognised_toggle|]. split; [reflexivity|].
  split; [reflexivity|].
  intros Hrec. split.
  - destruct Hrec as [->| ->]; discriminate.
  - by rewrite (toggle_twice _ Hrec).
Qed.

Lemma format_arrows_toggle_witness :
  onArrow true (onArrow false (panel0 saveFormat_field 0))
  = panel0 saveFormat_field 0
  /\ f_saveFormat (form (onArrow true (panel0 saveFormat_field 0)))
     = js "markdown".
Proof.
  destruct (format_arrows_toggle (panel0 saveFormat_field 0) false true
              eq_refl) as (_ & _ & _ & Hback).
  split; [apply Hback; by left | reflexivity].
Defined.

(** ** A save that fails *)


